(** * CleanS2S front end: the voice client hook and the sound player hook

    A shallow embedding of [frontend_nextjs/components/useVoiceClient.ts]
    (the session message router, [useVoiceClient]) and of the sound player
    that follows it in the same source file ([useSoundPlayer]: clip queue,
    PCM16 decoder, sequential playback, spectrum sampling).  The gain
    node and [muteAudio]/[unmuteAudio] touch nothing else and are left
    out.

    The hooks are event driven.  Every callback of the source is a
    function on an explicit state; what the browser does between two
    callbacks (a source node ends, an interval fires, a promise settles)
    is an event of a step function, so that interleavings are traces. *)

From Stdlib Require Import ZArith NArith List Bool String Ascii Lia QArith.
From Stdlib Require Import Floats.SpecFloat.
From Stdlib Require Floats.PrimFloat Floats.FloatOps.
From Stdlib Require Import Strings.Byte.
From Stdlib Require Import Sorting.Sorted.
Import ListNotations.

Local Open Scope string_scope.
Local Open Scope list_scope.
Local Open Scope Z_scope.

(* ================================================================== *)
(** * Numbers of the source: Number (binary64) and Float32Array cells  *)
(* ================================================================== *)

Module Float.

(** A JavaScript Number is an IEEE 754 binary64 value: a primitive
    float.  A [Float32Array] cell is a binary32 value, kept as the
    [spec_float] of precision 24 it is. *)
Definition prec32 : Z := 24.
Definition emax32 : Z := 128.

(** The Number read from an [Int16Array] cell, or an integer literal. *)
Definition ofInt (z : Z) : PrimFloat.float :=
  FloatOps.SF2Prim
    (binary_normalize FloatOps.prec FloatOps.emax z 0 false).

(** Storing a Number in a [Float32Array] rounds it to binary32
    (to nearest, ties to even). *)
Definition toFloat32 (x : PrimFloat.float) : spec_float :=
  match FloatOps.Prim2SF x with
  | S754_finite s m e => binary_round prec32 emax32 s m e
  | other => other
  end.

Definition isFinite (x : spec_float) : bool :=
  match x with
  | S754_zero _ | S754_finite _ _ _ => true
  | _ => false
  end.

Definition pow2 (e : Z) : Q :=
  match e with
  | Z0 => 1%Q
  | Zpos p => inject_Z (Z.pow_pos 2 p)
  | Zneg p => Qmake 1 (Pos.pow 2 p)
  end.

(** The rational a finite float stands for ([isFinite] tells the
    infinities and NaN apart). *)
Definition value (x : spec_float) : Q :=
  match x with
  | S754_finite s m e =>
      Qmult (inject_Z (if s then Z.neg m else Z.pos m)) (pow2 e)
  | _ => 0%Q
  end.

(** The binary32 values -1.0 and 0.999969482421875. *)
Definition minusOne : spec_float := S754_finite true 8388608 (-23).
Definition justBelowOne : spec_float := S754_finite false 16776704 (-24).

End Float.

(* ================================================================== *)
(** * The sample decoder (the [try] block of [addToQueue])             *)
(* ================================================================== *)

Module Decoder.

(** [new Int16Array(arrayBuffer, 0, n)]: cell [i] is the signed 16-bit
    integer held, low byte first, in bytes [2i] and [2i+1]. *)
Definition int16_le (lo hi : byte) : Z :=
  let u := Z.of_N (Byte.to_N lo) + 256 * Z.of_N (Byte.to_N hi) in
  if u <? 32768 then u else u - 65536.

Fixpoint Int16Array (arrayBuffer : list byte) (n : nat) : list Z :=
  match n, arrayBuffer with
  | S n', lo :: hi :: rest => int16_le lo hi :: Int16Array rest n'
  | _, _ => []
  end.

(** [float32Array[i] = int16Array[i] / 32768.0] *)
Definition sample (x : Z) : spec_float :=
  Float.toFloat32 (PrimFloat.div (Float.ofInt x) (Float.ofInt 32768)).

Record AudioBuffer := mkAudioBuffer {
  numberOfChannels : nat;
  length : nat;
  sampleRate : Z;
  channelData : list spec_float
}.

(** [audioContext.createBuffer(channels, frames, rate)].  The Web Audio
    API rejects a buffer of zero frames with a [NotSupportedError]; the
    two other arguments are the constants 1 and 16000 here. *)
Definition createBuffer (channels frames : nat) (rate : Z)
  : AudioBuffer + string :=
  match frames with
  | O => inr "The number of frames provided (0) is less than or equal to the minimum bound (0)."
  | _ => inl (mkAudioBuffer channels frames rate
                (repeat (S754_zero false) frames))
  end.

(** The body of the [try] block up to [nowBuffering.set(float32Array)].
    [numberOfFrames] is [byteLength / 2]; for an odd [byteLength] both
    [createBuffer] and the [Int16Array] constructor truncate it. *)
Definition decode (arrayBuffer : list byte) : AudioBuffer + string :=
  let numberOfChannels := 1%nat in
  let sampleRate := 16000 in
  let numberOfFrames :=
    Nat.div (List.length arrayBuffer) (numberOfChannels * 2) in
  match createBuffer numberOfChannels numberOfFrames sampleRate with
  | inr e => inr e
  | inl audioBuffer =>
      let int16Array := Int16Array arrayBuffer numberOfFrames in
      let float32Array := map sample int16Array in
      inl (mkAudioBuffer (Decoder.numberOfChannels audioBuffer)
             (Decoder.length audioBuffer)
             (Decoder.sampleRate audioBuffer)
             float32Array)
  end.

End Decoder.

(* ================================================================== *)
(** * Protocol frames and application events                           *)
(* ================================================================== *)

(** Modelled from the spec: the declarations of [./types] ([JsonMessage],
    [AudioOutput], [UserMessage], [AssistantMessage],
    [PostAssistantMessage]) are not among the sources.  A frame is the
    object the handler reads: its tag and the properties of section 6 of
    the specification.  An absent (undefined) property is [None]. *)
Module Frame.
Record t := mk {
  type : string;
  id : string;
  data : list byte;
  question : option string;
  answer : option string;
  end_ : bool
}.
End Frame.

(** The object literals handed to [onMessage]: [id] and [end] are absent
    from a user message. *)
Module Msg.
Record t := mk {
  type : string;
  id : option string;
  fromText : bool;
  role : string;
  content : option string;
  receivedAt : Z;
  end_ : option bool
}.
End Msg.

(** [{ ...message, receivedAt: new Date() }] *)
Record AudioOutput := mkAudioOutput {
  frame : Frame.t;
  receivedAt : Z
}.

(** JavaScript truthiness of a property holding a string or nothing:
    undefined and the empty string are falsy. *)
Definition truthy (s : option string) : bool :=
  match s with
  | Some EmptyString => false
  | Some _ => true
  | None => false
  end.

(** How a call or handler body completes. *)
Inductive completion (A : Type) : Type :=
| normal (a : A)
| throw (message : string).
Arguments normal {A} a.
Arguments throw {A} message.

(* ================================================================== *)
(** * The session message router ([useVoiceClient])                    *)
(* ================================================================== *)

Module Router.

Inductive VoiceReadyState := IDLE | CONNECTING | OPEN | CLOSED.

Record SocketConfig := mkSocketConfig {
  sendHostname : string;
  recvHostname : string;
  chatMode : bool
}.

(** What the hook asks of its surroundings, in call order.  Each
    callback is reached through a ref holding the latest prop
    ([onMessage.current?.(m)]): the call is made if the host supplied
    one.  [setTimeout f ms] registers [f] with the timers. *)
Inductive Action :=
| onVAD
| onMessage (m : Msg.t)
| onAudioMessage (m : AudioOutput)
| onOpen
| onClose
| onError (message : string)
| setTimeout (callback : Action) (ms : Z).

(** Modelled from the spec: [./ChatSocket] is not among the sources.
    "Each forwards to the transport's send channel": the socket keeps
    what was handed to it, in order, and whether [close] was called;
    [listening] is the configuration its listeners were registered
    under in [connect]. *)
Inductive Outbound :=
| SessionSettings (sessionSettings : string)
| AudioInput (arrayBuffer : list byte) (isPlaying : bool)
| UserInput (text : string)
| AssistantInput (text : string)
| PauseAssistant
| ResumeAssistant.

Record ChatSocket := mkChatSocket {
  uuid : string;
  listening : SocketConfig;
  sent : list Outbound;
  closed : bool
}.

Definition send (o : Outbound) (c : ChatSocket) : ChatSocket :=
  mkChatSocket (uuid c) (listening c) (sent c ++ [o]) (closed c).

Definition close (c : ChatSocket) : ChatSocket :=
  mkChatSocket (uuid c) (listening c) (sent c) true.

(** The hook's own state: the [client] ref and the two React states. *)
Record State := mkState {
  client : option ChatSocket;
  readyState : VoiceReadyState;
  curChatMode : bool
}.

Definition initial : State := mkState None IDLE false.

(** [client.current?.method(...)] *)
Definition optional (f : ChatSocket -> ChatSocket) (s : State) : State :=
  mkState (option_map f (client s)) (readyState s) (curChatMode s).

Definition setReadyState (r : VoiceReadyState) (s : State) : State :=
  mkState (client s) r (curChatMode s).

(** What a call of the public interface gives back: the state it
    leaves, the actions it took, and how it completed. *)
Record Outcome := mkOutcome {
  state : State;
  actions : list Action;
  result : completion unit
}.

(** ** [isNever] *)
Definition isNever (_n : Frame.t) : completion unit := normal tt.

(** ** The listener registered on ['message'] in [connect] *)

Definition vadMessage (now : Z) : Msg.t :=
  Msg.mk "user_vad_message" None false "user" (Some "") now None.

Definition notEndMessage (now : Z) : Msg.t :=
  Msg.mk "assistant_notend_message" (Some "notend begin") false
    "assistant" (Some "") now (Some false).

Definition questionMessage (content : string) (now : Z) : Msg.t :=
  Msg.mk "user_message" None false "user" (Some content) now None.

Definition textMessage (message : Frame.t) (content : string) (now : Z)
  : Msg.t :=
  Msg.mk "assistant_message" (Some (Frame.id message)) false "assistant"
    (Some content) now (Some (Frame.end_ message)).

Definition postQuestionMessage (message : Frame.t) (now : Z) : Msg.t :=
  Msg.mk "post_assistant_message" (Some (Frame.id message)) false
    "assistant" (Frame.answer message) now (Some true).

(** The first [if]: the ['vad_output'] branch. *)
Definition on_vad_output (config : SocketConfig) (now : Z)
  (message : Frame.t) : list Action :=
  if (Frame.type message =? "vad_output")%string then
    if chatMode config
    then [onVAD; onMessage (vadMessage now)]
    else [onMessage (notEndMessage now)]
  else [].

(** The text events of the ['audio_output'] branch. *)
Definition on_question (now : Z) (message : Frame.t) : list Action :=
  match Frame.question message with
  | Some q => if truthy (Some q) then [onMessage (questionMessage q now)]
              else []
  | None => []
  end.

Definition on_answer (now : Z) (message : Frame.t) : list Action :=
  match Frame.answer message with
  | Some a => if truthy (Some a) then [onMessage (textMessage message a now)]
              else []
  | None => []
  end.

Definition handOffDelay : Z := 200.

Definition on_message (config : SocketConfig) (now : Z)
  (message : Frame.t) : list Action * completion unit :=
  let vad := on_vad_output config now message in
  if (Frame.type message =? "audio_output")%string then
    let messageWithReceivedAt := mkAudioOutput message now in
    (vad ++ on_question now message ++ on_answer now message
         ++ [setTimeout (onAudioMessage messageWithReceivedAt) handOffDelay],
     normal tt)
  else
    let text :=
      if (Frame.type message =? "text_output")%string
      then [onMessage (postQuestionMessage message now)]
      else [] in
    (vad ++ text, isNever message).

(** ** [connect] and the other listeners *)

Definition connect (config : SocketConfig) (uuid : string) (s : State)
  : Outcome :=
  mkOutcome
    (mkState (Some (mkChatSocket uuid config [] false)) CONNECTING
       (chatMode config))
    [] (normal tt).

Definition on_open (s : State) : Outcome :=
  mkOutcome (setReadyState OPEN s) [onOpen] (normal tt).

Definition on_close (s : State) : Outcome :=
  mkOutcome (setReadyState CLOSED s) [onClose] (normal tt).

(** [e instanceof Error ? e.message : 'Unknown error'] *)
Definition on_error (e : option string) (s : State) : Outcome :=
  let message := match e with Some m => m | None => "Unknown error" end in
  mkOutcome s [onError message] (normal tt).

(** ** The public interface *)

Definition disconnect (s : State) : Outcome :=
  mkOutcome (optional close (setReadyState IDLE s)) [] (normal tt).

Definition sendSessionSettings (sessionSettings : string) (s : State)
  : Outcome :=
  mkOutcome (optional (send (SessionSettings sessionSettings)) s) []
    (normal tt).

Definition sendAudio (arrayBuffer : list byte) (isPlaying : bool)
  (s : State) : Outcome :=
  mkOutcome (optional (send (AudioInput arrayBuffer isPlaying)) s) []
    (normal tt).

Definition sendUserInput (text : string) (now : Z) (s : State) : Outcome :=
  let s' := optional (send (UserInput text)) s in
  if (text =? "new topic")%string then mkOutcome s' [] (normal tt)
  else
    let echo :=
      if curChatMode s then [onMessage (questionMessage text now)]
      else [] in
    mkOutcome s' (echo ++ [onMessage (notEndMessage now)]) (normal tt).

Definition sendAssistantInput (text : string) (s : State) : Outcome :=
  mkOutcome (optional (send (AssistantInput text)) s) [] (normal tt).

Definition sendPauseAssistantMessage (s : State) : Outcome :=
  mkOutcome (optional (send PauseAssistant) s) [] (normal tt).

Definition sendResumeAssistantMessage (s : State) : Outcome :=
  mkOutcome (optional (send ResumeAssistant) s) [] (normal tt).

(** Everything handed to any transport so far. *)
Definition transmitted (s : State) : list Outbound :=
  match client s with
  | Some c => sent c
  | None => []
  end.

(** ** Timers: when the registered callbacks run

    The handler runs to completion in one turn at the time of [clock];
    a callback registered by [setTimeout f ms] runs in a later turn,
    once the clock has reached its due time. *)
Record Loop := mkLoop {
  clock : Z;
  timers : list (Z * Action);
  observed : list (Z * Action)
}.

Definition perform (l : Loop) (a : Action) : Loop :=
  match a with
  | setTimeout callback ms =>
      mkLoop (clock l) (timers l ++ [(clock l + ms, callback)]) (observed l)
  | _ => mkLoop (clock l) (timers l) (observed l ++ [(clock l, a)])
  end.

(** A frame arrives: the listener runs at the current time. *)
Definition receive (config : SocketConfig) (message : Frame.t) (l : Loop)
  : Loop :=
  fold_left perform (fst (on_message config (clock l) message)) l.

Definition due (now : Z) (t : Z * Action) : bool := fst t <=? now.

(** [dt] milliseconds pass, then the timers that are due run. *)
Definition advance (dt : Z) (l : Loop) : Loop :=
  let now := clock l + dt in
  mkLoop now
    (filter (fun t => negb (due now t)) (timers l))
    (observed l ++ map (fun t => (now, snd t)) (filter (due now) (timers l))).

End Router.

(* ================================================================== *)
(** * The sound player ([useSoundPlayer])                              *)
(* ================================================================== *)

Module Player.

Record Clip := mkClip {
  id : string;
  buffer : Decoder.AudioBuffer
}.

(** Modelled from the spec: [./generateEmptyFft] and
    [./convertFrequencyScale] are not among the sources.
    [generateEmptyFft()] is "the fixed idle (all-empty) snapshot"; a
    sampled snapshot is the list of bark buckets
    [convertLinearFrequenciesToBark] returned. *)
Inductive Fft :=
| generateEmptyFft
| barkFrequencies (buckets : list N).

(** An [AudioBufferSourceNode] of the Web Audio API, as far as the hook
    drives it.  [playing]: [start(0)] was called and the node has
    neither reached the end of its buffer nor been [stop()]ped.
    [ended_pending]: the node was started and its [ended] event has yet
    to be dispatched; the browser dispatches it once, in a later turn,
    after the node finished or was stopped. *)
Record AudioBufferSourceNode := mkNode {
  node_buffer : Decoder.AudioBuffer;
  connected : bool;
  playing : bool;
  ended_pending : bool
}.

(** Calls of the two callbacks of the hook's props. *)
Inductive Call :=
| onError (message : string)
| onPlayAudio (id : string).

(** The React states ([isPlaying], [fft]), the refs, then the browser:
    the source nodes created so far (a node's handle is its position),
    the intervals set and not cleared (id, and the node its callback
    closes over), the next interval id (ids are positive), the next
    context handle, the number of [close()] promises not yet settled;
    last the calls made to the host. *)
Record World := mkWorld {
  isPlaying : bool;
  fft : Fft;
  audioContext : option nat;
  analyserNode : option nat;
  isInitialized : bool;
  clipQueue : list Clip;
  isProcessing : bool;
  currentlyPlayingAudioBuffer : option nat;
  frequencyDataIntervalId : option nat;
  nodes : list AudioBufferSourceNode;
  intervals : list (nat * nat);
  nextIntervalId : nat;
  nextContext : nat;
  closing : nat;
  calls : list Call
}.

Definition initial : World :=
  mkWorld false generateEmptyFft None None false [] false None None
    [] [] 1 0 0 [].

Definition set_isPlaying (v : bool) (w : World) : World :=
  mkWorld v (fft w) (audioContext w) (analyserNode w) (isInitialized w)
    (clipQueue w) (isProcessing w) (currentlyPlayingAudioBuffer w)
    (frequencyDataIntervalId w) (nodes w) (intervals w) (nextIntervalId w)
    (nextContext w) (closing w) (calls w).

Definition set_fft (v : Fft) (w : World) : World :=
  mkWorld (isPlaying w) v (audioContext w) (analyserNode w)
    (isInitialized w) (clipQueue w) (isProcessing w)
    (currentlyPlayingAudioBuffer w) (frequencyDataIntervalId w) (nodes w)
    (intervals w) (nextIntervalId w) (nextContext w) (closing w) (calls w).

Definition set_audioContext (v : option nat) (w : World) : World :=
  mkWorld (isPlaying w) (fft w) v (analyserNode w) (isInitialized w)
    (clipQueue w) (isProcessing w) (currentlyPlayingAudioBuffer w)
    (frequencyDataIntervalId w) (nodes w) (intervals w) (nextIntervalId w)
    (nextContext w) (closing w) (calls w).

Definition set_analyserNode (v : option nat) (w : World) : World :=
  mkWorld (isPlaying w) (fft w) (audioContext w) v (isInitialized w)
    (clipQueue w) (isProcessing w) (currentlyPlayingAudioBuffer w)
    (frequencyDataIntervalId w) (nodes w) (intervals w) (nextIntervalId w)
    (nextContext w) (closing w) (calls w).

Definition set_isInitialized (v : bool) (w : World) : World :=
  mkWorld (isPlaying w) (fft w) (audioContext w) (analyserNode w) v
    (clipQueue w) (isProcessing w) (currentlyPlayingAudioBuffer w)
    (frequencyDataIntervalId w) (nodes w) (intervals w) (nextIntervalId w)
    (nextContext w) (closing w) (calls w).

Definition set_clipQueue (v : list Clip) (w : World) : World :=
  mkWorld (isPlaying w) (fft w) (audioContext w) (analyserNode w)
    (isInitialized w) v (isProcessing w) (currentlyPlayingAudioBuffer w)
    (frequencyDataIntervalId w) (nodes w) (intervals w) (nextIntervalId w)
    (nextContext w) (closing w) (calls w).

Definition set_isProcessing (v : bool) (w : World) : World :=
  mkWorld (isPlaying w) (fft w) (audioContext w) (analyserNode w)
    (isInitialized w) (clipQueue w) v (currentlyPlayingAudioBuffer w)
    (frequencyDataIntervalId w) (nodes w) (intervals w) (nextIntervalId w)
    (nextContext w) (closing w) (calls w).

Definition set_currentlyPlayingAudioBuffer (v : option nat) (w : World) : World :=
  mkWorld (isPlaying w) (fft w) (audioContext w) (analyserNode w)
    (isInitialized w) (clipQueue w) (isProcessing w) v
    (frequencyDataIntervalId w) (nodes w) (intervals w) (nextIntervalId w)
    (nextContext w) (closing w) (calls w).

Definition set_frequencyDataIntervalId (v : option nat) (w : World) : World :=
  mkWorld (isPlaying w) (fft w) (audioContext w) (analyserNode w)
    (isInitialized w) (clipQueue w) (isProcessing w)
    (currentlyPlayingAudioBuffer w) v (nodes w) (intervals w)
    (nextIntervalId w) (nextContext w) (closing w) (calls w).

Definition set_nodes (v : list AudioBufferSourceNode) (w : World) : World :=
  mkWorld (isPlaying w) (fft w) (audioContext w) (analyserNode w)
    (isInitialized w) (clipQueue w) (isProcessing w)
    (currentlyPlayingAudioBuffer w) (frequencyDataIntervalId w) v
    (intervals w) (nextIntervalId w) (nextContext w) (closing w) (calls w).

Definition set_intervals (v : list (nat * nat)) (w : World) : World :=
  mkWorld (isPlaying w) (fft w) (audioContext w) (analyserNode w)
    (isInitialized w) (clipQueue w) (isProcessing w)
    (currentlyPlayingAudioBuffer w) (frequencyDataIntervalId w) (nodes w)
    v (nextIntervalId w) (nextContext w) (closing w) (calls w).

Definition set_nextIntervalId (v : nat) (w : World) : World :=
  mkWorld (isPlaying w) (fft w) (audioContext w) (analyserNode w)
    (isInitialized w) (clipQueue w) (isProcessing w)
    (currentlyPlayingAudioBuffer w) (frequencyDataIntervalId w) (nodes w)
    (intervals w) v (nextContext w) (closing w) (calls w).

Definition set_nextContext (v : nat) (w : World) : World :=
  mkWorld (isPlaying w) (fft w) (audioContext w) (analyserNode w)
    (isInitialized w) (clipQueue w) (isProcessing w)
    (currentlyPlayingAudioBuffer w) (frequencyDataIntervalId w) (nodes w)
    (intervals w) (nextIntervalId w) v (closing w) (calls w).

Definition set_closing (v : nat) (w : World) : World :=
  mkWorld (isPlaying w) (fft w) (audioContext w) (analyserNode w)
    (isInitialized w) (clipQueue w) (isProcessing w)
    (currentlyPlayingAudioBuffer w) (frequencyDataIntervalId w) (nodes w)
    (intervals w) (nextIntervalId w) (nextContext w) v (calls w).

Definition set_calls (v : list Call) (w : World) : World :=
  mkWorld (isPlaying w) (fft w) (audioContext w) (analyserNode w)
    (isInitialized w) (clipQueue w) (isProcessing w)
    (currentlyPlayingAudioBuffer w) (frequencyDataIntervalId w) (nodes w)
    (intervals w) (nextIntervalId w) (nextContext w) (closing w) v.

(** ** Callbacks as state transformers that may throw *)

Definition M (A : Type) : Type := World -> completion A * World.

Definition ret {A} (a : A) : M A := fun w => (normal a, w).

Definition bind {A B} (m : M A) (k : A -> M B) : M B :=
  fun w =>
    match m w with
    | (normal a, w') => k a w'
    | (throw e, w') => (throw e, w')
    end.

Definition read {A} (f : World -> A) : M A := fun w => (normal (f w), w).

Definition modify (f : World -> World) : M unit :=
  fun w => (normal tt, f w).

Definition raise {A} (e : string) : M A := fun w => (throw e, w).

(** [try { body } catch (e) { handler(e) }]: what [body] did before it
    threw stays done. *)
Definition tryCatch {A} (body : M A) (handler : string -> M A) : M A :=
  fun w =>
    match body w with
    | (normal a, w') => (normal a, w')
    | (throw e, w') => handler e w'
    end.

Notation "x <- m ;; k" := (bind m (fun x => k))
  (at level 61, m at next level, right associativity).
Notation "m ;; k" := (bind m (fun _ => k))
  (at level 61, right associativity).

Definition when (b : bool) (m : M unit) : M unit :=
  if b then m else ret tt.

Definition call (c : Call) : M unit :=
  modify (fun w => set_calls (calls w ++ [c]) w).

(** ** The browser *)

(** The list with its cell [n], if any, changed by [f]. *)
Fixpoint alter {A} (f : A -> A) (n : nat) (l : list A) : list A :=
  match l, n with
  | [], _ => []
  | x :: rest, O => f x :: rest
  | x :: rest, S n' => x :: alter f n' rest
  end.

Definition update_node (n : nat)
  (f : AudioBufferSourceNode -> AudioBufferSourceNode) : M unit :=
  modify (fun w => set_nodes (alter f n (nodes w)) w).

(** [audioContext.createBufferSource()], [.buffer = b],
    [.connect(analyserNode)] *)
Definition createBufferSource (b : Decoder.AudioBuffer) : M nat :=
  n <- read (fun w => List.length (nodes w)) ;;
  modify (fun w => set_nodes (nodes w ++ [mkNode b true false false]) w) ;;
  ret n.

Definition start (n : nat) : M unit :=
  update_node n (fun s => mkNode (node_buffer s) (connected s) true true).

(** [stop()] silences the node; its [ended] event stays to be
    dispatched. *)
Definition stop (n : nat) : M unit :=
  update_node n (fun s =>
    mkNode (node_buffer s) (connected s) false (ended_pending s)).

Definition disconnect (n : nat) : M unit :=
  update_node n (fun s =>
    mkNode (node_buffer s) false (playing s) (ended_pending s)).

(** [window.setInterval(updateFrequencyData, 5)] *)
Definition samplingPeriod : Z := 5.

Definition setInterval (bufferSource : nat) : M nat :=
  i <- read nextIntervalId ;;
  modify (fun w =>
    set_nextIntervalId (S i)
      (set_intervals (intervals w ++ [(i, bufferSource)]) w)) ;;
  ret i.

Definition clearInterval (i : nat) : M unit :=
  modify (fun w =>
    set_intervals
      (filter (fun t => negb (Nat.eqb (fst t) i)) (intervals w)) w).

(** [if (frequencyDataIntervalId.current) clearInterval(...)]: an id
    is a number, truthy unless 0. *)
Definition clearSampling : M unit :=
  i <- read frequencyDataIntervalId ;;
  match i with
  | Some (S i') => clearInterval (S i')
  | _ => ret tt
  end.

(** ** [playNextClip] *)

Definition playNextClip : M unit :=
  analyser <- read analyserNode ;;
  context <- read audioContext ;;
  match analyser, context with
  | Some _, Some _ =>
      queue <- read clipQueue ;;
      processing <- read isProcessing ;;
      if (Nat.eqb (List.length queue) 0 || processing)%bool then ret tt
      else
        match queue with
        | [] => ret tt
        | nextClip :: rest =>
            modify (set_clipQueue rest) ;;
            modify (set_isProcessing true) ;;
            modify (set_isPlaying true) ;;
            bufferSource <- createBufferSource (buffer nextClip) ;;
            modify (set_currentlyPlayingAudioBuffer (Some bufferSource)) ;;
            i <- setInterval bufferSource ;;
            modify (set_frequencyDataIntervalId (Some i)) ;;
            start bufferSource ;;
            call (onPlayAudio (id nextClip))
        end
  | _, _ => call (onError "Audio environment is not initialized")
  end.

(** [bufferSource.onended] *)
Definition onended (bufferSource : nat) : M unit :=
  clearSampling ;;
  modify (set_fft generateEmptyFft) ;;
  disconnect bufferSource ;;
  modify (set_isProcessing false) ;;
  modify (set_isPlaying false) ;;
  modify (set_currentlyPlayingAudioBuffer None) ;;
  playNextClip.

(** [updateFrequencyData]: [reading] is what reading the analyser and
    converting to the bark scale gave, [None] when it threw.  The
    buffer of [bufferSource] always has a sample rate. *)
Definition updateFrequencyData (bufferSource : nat)
  (reading : option (list N)) : M unit :=
  analyser <- read analyserNode ;;
  match analyser with
  | None => ret tt
  | Some _ =>
      match reading with
      | Some buckets => modify (set_fft (barkFrequencies buckets))
      | None => modify (set_fft generateEmptyFft)
      end
  end.

(** ** [initPlayer] *)
Definition initPlayer : M unit :=
  c <- read nextContext ;;
  modify (set_nextContext (S c)) ;;
  modify (set_audioContext (Some c)) ;;
  modify (set_analyserNode (Some c)) ;;
  modify (set_isInitialized true).

(** ** [addToQueue] *)

Definition notInitialized (w : World) : bool :=
  (negb (isInitialized w) ||
   match audioContext w with Some _ => false | None => true end)%bool.

Definition decodeClip (message : AudioOutput) : M Decoder.AudioBuffer :=
  match Decoder.decode (Frame.data (frame message)) with
  | inl audioBuffer => ret audioBuffer
  | inr e => raise e
  end.

Definition addToQueue (message : AudioOutput) : M unit :=
  blocked <- read notInitialized ;;
  if blocked then call (onError "Audio player has not been initialized")
  else
    tryCatch
      (audioBuffer <- decodeClip message ;;
       modify (fun w =>
         set_clipQueue
           (clipQueue w ++ [mkClip (Frame.id (frame message)) audioBuffer])
           w) ;;
       queue <- read clipQueue ;;
       when (Nat.eqb (List.length queue) 1) playNextClip)
      (fun eMessage =>
         call (onError ("Failed to add clip to queue: " ++ eMessage)%string)).

(** ** [stopAll] *)
Definition stopAll : M unit :=
  modify (set_isInitialized false) ;;
  modify (set_isProcessing false) ;;
  modify (set_isPlaying false) ;;
  clearSampling ;;
  current <- read currentlyPlayingAudioBuffer ;;
  match current with
  | Some n =>
      disconnect n ;; modify (set_currentlyPlayingAudioBuffer None)
  | None => ret tt
  end ;;
  analyser <- read analyserNode ;;
  match analyser with
  | Some _ => modify (set_analyserNode None)
  | None => ret tt
  end ;;
  context <- read audioContext ;;
  match context with
  | Some _ => modify (fun w => set_closing (S (closing w)) w)
  | None => ret tt
  end ;;
  modify (set_clipQueue []) ;;
  modify (set_fft generateEmptyFft).

(** The promise of [audioContext.current.close()] settles: [.then]
    clears the ref, [.catch] does nothing. *)
Definition closeSettled (fulfilled : bool) : M unit :=
  modify (fun w => set_closing (Nat.pred (closing w)) w) ;;
  when fulfilled (modify (set_audioContext None)).

(** ** [clearQueue] *)
Definition clearQueue : M unit :=
  current <- read currentlyPlayingAudioBuffer ;;
  match current with
  | Some n => stop n ;; modify (set_currentlyPlayingAudioBuffer None)
  | None => ret tt
  end ;;
  modify (set_clipQueue []) ;;
  modify (set_isProcessing false) ;;
  modify (set_isPlaying false) ;;
  modify (set_fft generateEmptyFft).

(** ** The player over time *)

Inductive Event :=
| InitPlayer
| AddToQueue (message : AudioOutput)
| StopAll
| ClearQueue
| Ended (bufferSource : nat)
| Interval (id : nat) (reading : option (list N))
| CloseSettled (fulfilled : bool).

Definition node (w : World) (n : nat) : option AudioBufferSourceNode :=
  nth_error (nodes w) n.

Definition closure (w : World) (i : nat) : option nat :=
  option_map snd (find (fun t => Nat.eqb (fst t) i) (intervals w)).

(** What the browser can do in a state: dispatch [ended] to a node that
    awaits it, run an interval that is set, settle a pending promise.
    The host may call the public functions at any time. *)
Definition enabled (e : Event) (w : World) : bool :=
  match e with
  | Ended n =>
      match node w n with
      | Some s => ended_pending s
      | None => false
      end
  | Interval i _ =>
      match closure w i with Some _ => true | None => false end
  | CloseSettled _ => negb (Nat.eqb (closing w) 0)
  | _ => true
  end.

Definition handler (e : Event) (w : World) : M unit :=
  match e with
  | InitPlayer => initPlayer
  | AddToQueue message => addToQueue message
  | StopAll => stopAll
  | ClearQueue => clearQueue
  | Ended n =>
      update_node n (fun s =>
        mkNode (node_buffer s) (connected s) false false) ;;
      onended n
  | Interval i reading =>
      match closure w i with
      | Some bufferSource => updateFrequencyData bufferSource reading
      | None => ret tt
      end
  | CloseSettled fulfilled => closeSettled fulfilled
  end.

Definition step (e : Event) (w : World) : option World :=
  if enabled e w then Some (snd (handler e w w)) else None.

Fixpoint run (trace : list Event) (w : World) : option World :=
  match trace with
  | [] => Some w
  | e :: rest =>
      match step e w with
      | Some w' => run rest w'
      | None => None
      end
  end.

(** ** What is observed *)

(** A node sounds while it plays into the graph. *)
Definition sounds (s : AudioBufferSourceNode) : bool :=
  (playing s && connected s)%bool.

Definition sounding (w : World) : list nat :=
  filter
    (fun n => match nth_error (nodes w) n with
              | Some s => sounds s
              | None => false
              end)
    (seq 0 (List.length (nodes w))).

(** The ids of the intervals still set. *)
Definition sampling (w : World) : list nat := map fst (intervals w).

(** The clips announced through [onPlayAudio], in order. *)
Definition played (w : World) : list string :=
  flat_map (fun c => match c with
                     | onPlayAudio id => [id]
                     | onError _ => []
                     end)
    (calls w).

(** The clips handed to [addToQueue] along a trace, in order. *)
Definition enqueued (trace : list Event) : list string :=
  flat_map (fun e => match e with
                     | AddToQueue message => [Frame.id (frame message)]
                     | _ => []
                     end)
    trace.

(** An [ended] event is timely when its node is still the active one. *)
Definition timely (e : Event) (w : World) : bool :=
  match e with
  | Ended n =>
      match currentlyPlayingAudioBuffer w with
      | Some m => Nat.eqb n m
      | None => false
      end
  | _ => true
  end.

Fixpoint run_timely (trace : list Event) (w : World) : option World :=
  match trace with
  | [] => Some w
  | e :: rest =>
      if timely e w then
        match step e w with
        | Some w' => run_timely rest w'
        | None => None
        end
      else None
  end.

(** One clip at most sounds, it is the active one, and [isProcessing]
    says whether there is one. *)
Definition exclusive (w : World) : Prop :=
  (forall i, In i (sounding w) <-> currentlyPlayingAudioBuffer w = Some i) /\
  (isProcessing w = true <-> currentlyPlayingAudioBuffer w <> None).

End Player.

(** [Subseq xs ys]: [xs] is [ys] with some elements left out. *)
Inductive Subseq {A : Type} : list A -> list A -> Prop :=
| Subseq_nil : Subseq [] []
| Subseq_skip (y : A) (xs ys : list A) : Subseq xs ys -> Subseq xs (y :: ys)
| Subseq_take (x : A) (xs ys : list A) :
    Subseq xs ys -> Subseq (x :: xs) (x :: ys).

(* ================================================================== *)
(** * Checks by evaluation and the inputs of the examples              *)
(* ================================================================== *)

Module Check.

(** [sample x] is the finite float [x / 32768], tested on integers. *)
Definition exact (x : Z) : bool :=
  match Decoder.sample x with
  | S754_finite s m e =>
      (e <=? 0) &&
      ((if s then Z.neg m else Z.pos m) * 32768 =? x * 2 ^ (- e))
  | S754_zero _ => x =? 0
  | _ => false
  end.

Fixpoint exact_from (x : Z) (n : nat) : bool :=
  match n with
  | O => true
  | S n' => exact x && exact_from (x + 1) n'
  end.

End Check.

Module Examples.

Definition chat : Router.SocketConfig :=
  Router.mkSocketConfig "ws://send" "ws://recv" true.

Definition turnBased : Router.SocketConfig :=
  Router.mkSocketConfig "ws://send" "ws://recv" false.

Definition ping : Frame.t := Frame.mk "ping" "" [] None None false.

Definition vad : Frame.t := Frame.mk "vad_output" "" [] None None false.

Definition pcm : list byte := [x00; x80; xff; x7f].

(** The frame of the text-before-audio property of the specification. *)
Definition hiHello : Frame.t :=
  Frame.mk "audio_output" "clip-1" pcm (Some "hi") (Some "hello") false.

(** A frame whose [question] is present and empty. *)
Definition emptyQuestion : Frame.t :=
  Frame.mk "audio_output" "clip-2" pcm (Some "") (Some "hello") true.

Definition clip (id : string) (data : list byte) : AudioOutput :=
  mkAudioOutput (Frame.mk "audio_output" id data None None false) 0.

Definition A : AudioOutput := clip "A" pcm.
Definition B : AudioOutput := clip "B" pcm.
Definition C : AudioOutput := clip "C" pcm.
Definition empty : AudioOutput := clip "E" [].

Definition connected : Router.State :=
  Router.state (Router.connect turnBased "uuid" Router.initial).

(** A player with clip A sounding and B, C waiting. *)
Definition busy : option Player.World :=
  Player.run
    [Player.InitPlayer; Player.AddToQueue A; Player.AddToQueue B;
     Player.AddToQueue C]
    Player.initial.

End Examples.

(* ================================================================== *)
(** * The hooks over time: sessions, timers, gain                      *)
(* ================================================================== *)

(** The router over a session: calls of its public interface and events
    of the socket, one at a time. *)
Module Session.

Inductive Op :=
| Connect (config : Router.SocketConfig) (uuid : string)
| Open
| Close
| Error (e : option string)
| Disconnect
| SendSessionSettings (sessionSettings : string)
| SendAudio (arrayBuffer : list byte) (isPlaying : bool)
| SendUserInput (text : string) (now : Z)
| SendAssistantInput (text : string)
| Pause
| Resume.

Definition apply (o : Op) (s : Router.State) : Router.Outcome :=
  match o with
  | Connect config uuid => Router.connect config uuid s
  | Open => Router.on_open s
  | Close => Router.on_close s
  | Error e => Router.on_error e s
  | Disconnect => Router.disconnect s
  | SendSessionSettings sessionSettings =>
      Router.sendSessionSettings sessionSettings s
  | SendAudio arrayBuffer isPlaying =>
      Router.sendAudio arrayBuffer isPlaying s
  | SendUserInput text now => Router.sendUserInput text now s
  | SendAssistantInput text => Router.sendAssistantInput text s
  | Pause => Router.sendPauseAssistantMessage s
  | Resume => Router.sendResumeAssistantMessage s
  end.

Definition run (ops : list Op) (s : Router.State) : Router.State :=
  fold_left (fun s o => Router.state (apply o s)) ops s.

Definition connects (o : Op) : bool :=
  match o with
  | Connect _ _ => true
  | _ => false
  end.

(** What a call asks the client to send. *)
Definition command (o : Op) : list Router.Outbound :=
  match o with
  | SendSessionSettings sessionSettings =>
      [Router.SessionSettings sessionSettings]
  | SendAudio arrayBuffer isPlaying =>
      [Router.AudioInput arrayBuffer isPlaying]
  | SendUserInput text _ => [Router.UserInput text]
  | SendAssistantInput text => [Router.AssistantInput text]
  | Pause => [Router.PauseAssistant]
  | Resume => [Router.ResumeAssistant]
  | _ => []
  end.

End Session.

(** Frames arriving and time passing, on the timers of [Router.Loop]. *)
Module Timeline.

Inductive Tick :=
| Arrive (message : Frame.t)
| Wait (dt : N).

Definition step (config : Router.SocketConfig) (l : Router.Loop) (t : Tick)
  : Router.Loop :=
  match t with
  | Arrive message => Router.receive config message l
  | Wait dt => Router.advance (Z.of_N dt) l
  end.

Definition play (config : Router.SocketConfig) (ticks : list Tick)
  (l : Router.Loop) : Router.Loop :=
  fold_left (step config) ticks l.

Definition handOff (a : Router.Action) : list AudioOutput :=
  match a with
  | Router.onAudioMessage m => [m]
  | _ => []
  end.

(** The clips handed to [onAudioMessage] so far, and those whose timer
    is still set. *)
Definition handedOff (l : Router.Loop) : list AudioOutput :=
  flat_map (fun p => handOff (snd p)) (Router.observed l).

Definition awaiting (l : Router.Loop) : list AudioOutput :=
  flat_map (fun p => handOff (snd p)) (Router.timers l).

(** The audio frames among the arrivals, each with its time of receipt. *)
Fixpoint arrivals (now : Z) (ticks : list Tick) : list AudioOutput :=
  match ticks with
  | [] => []
  | Arrive message :: rest =>
      (if (Frame.type message =? "audio_output")%string
       then [mkAudioOutput message now]
       else [])
      ++ arrivals now rest
  | Wait dt :: rest => arrivals (now + Z.of_N dt) rest
  end.

(** Every timer holds a hand-off, due 200 ms after its frame arrived and
    not yet due; every hand-off observed came no sooner than that. *)
Definition punctual (l : Router.Loop) : Prop :=
  (forall due a, In (due, a) (Router.timers l) ->
     Router.clock l < due /\
     exists m, a = Router.onAudioMessage m /\ due = receivedAt m + 200) /\
  (forall t m, In (t, Router.onAudioMessage m) (Router.observed l) ->
     receivedAt m + 200 <= t).

End Timeline.

(** The gain stage of the sound player: [gainNode], [isAudioMuted],
    [muteAudio] and [unmuteAudio], beside the state of [Player]. *)
Module Mixer.

(** A [GainNode]: the context it belongs to and the value of its gain,
    1 when created. *)
Record GainNode := mkGainNode {
  context : nat;
  gain : Z
}.

Record State := mkState {
  player : Player.World;
  gainNode : option GainNode;
  isAudioMuted : bool
}.

Definition initial : State := mkState Player.initial None false.

(** A callback of [Player] that leaves the gain stage alone. *)
Definition lift (m : Player.M unit) (s : State) : State :=
  mkState (snd (m (player s))) (gainNode s) (isAudioMuted s).

(** [initPlayer], with [gainNode.current = gain]. *)
Definition initPlayer (s : State) : State :=
  mkState (snd (Player.initPlayer (player s)))
    (Some (mkGainNode (Player.nextContext (player s)) 1))
    (isAudioMuted s).

(** [gainNode.current.gain.setValueAtTime(v, currentTime)] under
    [if (gainNode.current && audioContext.current)], then
    [setIsAudioMuted]. *)
Definition setGain (v : Z) (muted : bool) (s : State) : State :=
  match gainNode s, Player.audioContext (player s) with
  | Some g, Some _ => mkState (player s) (Some (mkGainNode (context g) v)) muted
  | _, _ => s
  end.

Definition muteAudio (s : State) : State := setGain 0 true s.

Definition unmuteAudio (s : State) : State := setGain 1 false s.

Definition stopAll (s : State) : State := lift Player.stopAll s.

Definition closeSettled (fulfilled : bool) (s : State) : State :=
  lift (Player.closeSettled fulfilled) s.

(** The gain the output goes through, if there is a gain node. *)
Definition level (s : State) : option Z := option_map gain (gainNode s).

End Mixer.

(** The sampling intervals of the player. *)
Module Sampling.

(** An event other than [clearQueue]. *)
Definition gentle (e : Player.Event) : bool :=
  match e with
  | Player.ClearQueue => false
  | _ => true
  end.

(** The one interval set is the one of the active clip, under the id the
    hook remembers; none is set when no clip is active. *)
Definition tidy (w : Player.World) : Prop :=
  match Player.currentlyPlayingAudioBuffer w with
  | None => Player.intervals w = []
  | Some n =>
      exists i,
        Player.intervals w = [(S i, n)] /\
        Player.frequencyDataIntervalId w = Some (S i)
  end /\
  Player.nextIntervalId w <> 0%nat.

End Sampling.

(** A clip on air. *)
Module Playback.

(** The player is initialised and the node [current], the last one
    created, is the active one and has yet to end. *)
Definition onAir (w : Player.World) (current : nat) : Prop :=
  Player.notInitialized w = false /\
  Player.analyserNode w <> None /\
  Player.isProcessing w = true /\
  Player.currentlyPlayingAudioBuffer w = Some current /\
  List.length (Player.nodes w) = S current /\
  exists s,
    nth_error (Player.nodes w) current = Some s /\
    Player.ended_pending s = true.

End Playback.

Module Cases.

(** An initialised player at rest. *)
Definition ready : Player.World := snd (Player.initPlayer Player.initial).

Definition text : Frame.t :=
  Frame.mk "text_output" "reply-1" [] None (Some "hello") false.

Definition odd : list byte := [x00; x80; xff; x7f; x01].

Definition session : list Session.Op :=
  [Session.Connect Examples.chat "uuid"; Session.Open;
   Session.SendUserInput "hi" 5; Session.Disconnect; Session.Close;
   Session.Pause].

Definition ticks : list Timeline.Tick :=
  [Timeline.Arrive Examples.hiHello; Timeline.Wait 10;
   Timeline.Arrive Examples.emptyQuestion; Timeline.Wait 195;
   Timeline.Arrive Examples.vad; Timeline.Wait 5].

End Cases.

(* ================================================================== *)
(** * The sample decoder                                               *)
(* ================================================================== *)

Section DecoderFacts.

Lemma exact_from_spec (n : nat) :
  forall x y, Check.exact_from x n = true ->
    x <= y < x + Z.of_nat n -> Check.exact y = true.
Proof.
  induction n as [|n IH]; intros x y Hall Hy.
  - lia.
  - cbn [Check.exact_from] in Hall.
    apply andb_true_iff in Hall as [Hx Hrest].
    destruct (Z.eq_dec x y) as [->|Hne]; [exact Hx|].
    apply (IH (x + 1)); [exact Hrest|lia].
Qed.

(** Every 16-bit integer passes the test: 65536 evaluations. *)
Lemma exact_int16 : Check.exact_from (-32768) (Nat.pow 2 16) = true.
Proof. vm_cast_no_check (@eq_refl bool true). Qed.

Lemma exact_sound (x : Z) :
  Check.exact x = true ->
  Float.isFinite (Decoder.sample x) = true /\
  (Float.value (Decoder.sample x) == x # 32768)%Q.
Proof.
  unfold Check.exact.
  destruct (Decoder.sample x) as [s| |  |s m e]; try discriminate.
  - intros Hx. apply Z.eqb_eq in Hx. subst x. split; [reflexivity|].
    reflexivity.
  - intros H. apply andb_true_iff in H as [He Hm].
    apply Z.leb_le in He. apply Z.eqb_eq in Hm.
    split; [reflexivity|].
    unfold Float.value, Float.pow2.
    destruct e as [|p|p]; [| lia |].
    + unfold Qeq. cbn. cbn in Hm. lia.
    + unfold Qeq. cbn [Qmult Qnum Qden inject_Z].
      change (- Z.neg p) with (Z.pos p) in Hm.
      rewrite Pos.mul_1_l, Z.mul_1_r, Pos2Z.inj_pow.
      exact Hm.
Qed.

Lemma int16_le_range (lo hi : byte) :
  -32768 <= Decoder.int16_le lo hi <= 32767.
Proof.
  unfold Decoder.int16_le.
  pose proof (Byte.to_N_bounded lo). pose proof (Byte.to_N_bounded hi).
  destruct (Z.ltb_spec
    (Z.of_N (Byte.to_N lo) + 256 * Z.of_N (Byte.to_N hi)) 32768); lia.
Qed.

(** A decoded sample is exactly its 16-bit integer over 32768. *)
Lemma sample_int16 (lo hi : byte) :
  Float.isFinite (Decoder.sample (Decoder.int16_le lo hi)) = true /\
  (Float.value (Decoder.sample (Decoder.int16_le lo hi))
     == Decoder.int16_le lo hi # 32768)%Q.
Proof.
  apply exact_sound.
  apply (exact_from_spec _ _ _ exact_int16).
  pose proof (int16_le_range lo hi).
  change (Z.of_nat (Nat.pow 2 16)) with 65536. lia.
Qed.

Lemma Int16Array_length (k : nat) :
  forall arrayBuffer, List.length arrayBuffer = (2 * k)%nat ->
    List.length (Decoder.Int16Array arrayBuffer k) = k.
Proof.
  induction k as [|k IH]; intros arrayBuffer Hlen.
  - destruct arrayBuffer; [reflexivity|discriminate].
  - destruct arrayBuffer as [|lo [|hi rest]]; cbn in Hlen; try lia.
    cbn [Decoder.Int16Array List.length]. f_equal. apply IH. lia.
Qed.

Lemma Int16Array_nth (k : nat) :
  forall arrayBuffer i, List.length arrayBuffer = (2 * k)%nat ->
    (i < k)%nat ->
    exists lo hi,
      nth_error arrayBuffer (2 * i) = Some lo /\
      nth_error arrayBuffer (2 * i + 1) = Some hi /\
      nth_error (Decoder.Int16Array arrayBuffer k) i
        = Some (Decoder.int16_le lo hi).
Proof.
  induction k as [|k IH]; intros arrayBuffer i Hlen Hi; [lia|].
  destruct arrayBuffer as [|lo [|hi rest]]; cbn in Hlen; try lia.
  destruct i as [|i].
  - exists lo, hi. repeat split.
  - destruct (IH rest i) as (lo' & hi' & Hlo & Hhi & Hnth); [lia|lia|].
    exists lo', hi'.
    replace (2 * S i)%nat with (S (S (2 * i))) by lia.
    replace (S (S (2 * i)) + 1)%nat with (S (S (2 * i + 1))) by lia.
    cbn [nth_error Decoder.Int16Array]. auto.
Qed.

End DecoderFacts.

(** C4, as the code has it: for every raw byte buffer of positive even
    length n enqueued as a clip, the decoder produces a sample buffer of
    exactly n/2 binary32 samples, sample i being exactly the i-th
    little-endian signed 16-bit integer divided by 32768; the integer
    -32768 decodes to -1.0 and 32767 to 32767/32768. *)
Theorem decode_pcm16 (arrayBuffer : list byte) (k : nat) :
  List.length arrayBuffer = (2 * k)%nat -> (0 < k)%nat ->
  exists audioBuffer,
    Decoder.decode arrayBuffer = inl audioBuffer /\
    Decoder.length audioBuffer = k /\
    Decoder.sampleRate audioBuffer = 16000 /\
    List.length (Decoder.channelData audioBuffer) = k /\
    (forall i, (i < k)%nat ->
       exists lo hi s,
         nth_error arrayBuffer (2 * i) = Some lo /\
         nth_error arrayBuffer (2 * i + 1) = Some hi /\
         nth_error (Decoder.channelData audioBuffer) i = Some s /\
         Float.isFinite s = true /\
         (Float.value s == Decoder.int16_le lo hi # 32768)%Q) /\
    Decoder.sample (-32768) = Float.minusOne /\
    (Float.value Float.minusOne == -1 # 1)%Q /\
    Decoder.sample 32767 = Float.justBelowOne /\
    (Float.value Float.justBelowOne == 32767 # 32768)%Q.
Proof.
  intros Hlen Hk.
  unfold Decoder.decode.
  replace (Nat.div (List.length arrayBuffer) (1 * 2)) with k
    by (rewrite Hlen, Nat.mul_comm; symmetry; apply Nat.div_mul; lia).
  destruct k as [|k']; [lia|].
  cbn [Decoder.createBuffer].
  eexists. split; [reflexivity|].
  cbn [Decoder.length Decoder.sampleRate Decoder.channelData].
  split; [reflexivity|]. split; [reflexivity|].
  split; [rewrite length_map; apply Int16Array_length; exact Hlen|].
  split.
  - intros i Hi.
    destruct (Int16Array_nth (S k') arrayBuffer i Hlen Hi)
      as (lo & hi & Hlo & Hhi & Hnth).
    exists lo, hi, (Decoder.sample (Decoder.int16_le lo hi)).
    rewrite nth_error_map, Hnth.
    destruct (sample_int16 lo hi) as [Hfin Hval].
    repeat split; assumption.
  - repeat split; vm_compute; reflexivity.
Qed.

Lemma decode_pcm16_witness :
  exists audioBuffer,
    Decoder.decode Examples.pcm = inl audioBuffer /\
    Decoder.channelData audioBuffer = [Float.minusOne; Float.justBelowOne].
Proof.
  destruct (decode_pcm16 Examples.pcm 2 eq_refl (le_S _ _ (le_n 1)))
    as (audioBuffer & Hdec & _).
  exists audioBuffer. split; [exact Hdec|].
  vm_compute in Hdec. injection Hdec as <-. reflexivity.
Defined.

(** C4 as stated fails on the empty buffer, of even length 0:
    [createBuffer] refuses zero frames and no sample buffer is made. *)
Lemma decode_empty_buffer :
  List.length (@nil byte) = (2 * 0)%nat /\
  forall audioBuffer, Decoder.decode [] <> inl audioBuffer.
Proof. split; [reflexivity|]. intros audioBuffer. discriminate. Qed.

(* ================================================================== *)
(** * The session message router                                       *)
(* ================================================================== *)

Section RouterFacts.

Import Router.

Lemma fold_perform_plain (acts : list Action) :
  (forall a, In a acts -> forall f ms, a <> setTimeout f ms) ->
  forall l,
    fold_left perform acts l =
    mkLoop (clock l) (timers l)
      (observed l ++ map (fun a => (clock l, a)) acts).
Proof.
  induction acts as [|a acts IH]; intros Hplain l.
  - cbn. rewrite app_nil_r. destruct l; reflexivity.
  - cbn [fold_left map].
    rewrite IH by (intros b Hb; apply Hplain; right; exact Hb).
    assert (Ha : forall f ms, a <> setTimeout f ms)
      by (apply Hplain; left; reflexivity).
    destruct a; cbn [perform clock timers observed];
      try (rewrite <- app_assoc; reflexivity).
    exfalso. exact (Ha _ _ eq_refl).
Qed.

Lemma fold_perform_app (xs ys : list Action) (l : Loop) :
  fold_left perform (xs ++ ys) l
  = fold_left perform ys (fold_left perform xs l).
Proof. apply fold_left_app. Qed.

Lemma filter_due_last (now : Z) (ts : list (Z * Action)) (t : Z * Action) :
  filter (due now) (ts ++ [t])
  = filter (due now) ts ++ (if due now t then [t] else []).
Proof. rewrite filter_app. reflexivity. Qed.

(** The text events of an ['audio_output'] frame hold no timer. *)
Lemma texts_plain (now : Z) (message : Frame.t) :
  forall a, In a (on_question now message ++ on_answer now message) ->
    forall f ms, a <> setTimeout f ms.
Proof.
  intros a Hin f ms.
  apply in_app_or in Hin.
  unfold on_question, on_answer in Hin.
  destruct Hin as [Hin|Hin].
  - destruct (Frame.question message) as [q|]; [|contradiction].
    destruct (truthy (Some q)); [|contradiction].
    destruct Hin as [<-|[]]. discriminate.
  - destruct (Frame.answer message) as [q|]; [|contradiction].
    destruct (truthy (Some q)); [|contradiction].
    destruct Hin as [<-|[]]. discriminate.
Qed.

Lemma not_vad (config : SocketConfig) (now : Z) (message : Frame.t) :
  Frame.type message <> "vad_output" ->
  on_vad_output config now message = [].
Proof.
  intros Hne. unfold on_vad_output.
  destruct (String.eqb_spec (Frame.type message) "vad_output");
    [contradiction|reflexivity].
Qed.

End RouterFacts.

(** C1, as the code has it: for every inbound frame whose tag is none of
    vad_output, audio_output, text_output, the message handler takes no
    action at all and returns normally; [isNever] does nothing when it
    runs, so the frame is dropped without a failure. *)
Theorem unrecognized_frame_dropped
  (config : Router.SocketConfig) (now : Z) (message : Frame.t) :
  Frame.type message <> "vad_output" ->
  Frame.type message <> "audio_output" ->
  Frame.type message <> "text_output" ->
  Router.on_message config now message = ([], normal tt).
Proof.
  intros Hvad Haudio Htext.
  unfold Router.on_message.
  rewrite (not_vad config now message Hvad).
  destruct (String.eqb_spec (Frame.type message) "audio_output");
    [contradiction|].
  destruct (String.eqb_spec (Frame.type message) "text_output");
    [contradiction|].
  reflexivity.
Qed.

Lemma unrecognized_frame_dropped_witness :
  Router.on_message Examples.chat 0 Examples.ping = ([], normal tt).
Proof.
  apply (unrecognized_frame_dropped Examples.chat 0 Examples.ping);
    discriminate.
Defined.

(** C1 as stated fails: on a frame tagged "ping" the handler completes
    normally, whatever the mode. *)
Lemma unrecognized_frame_no_failure :
  Frame.type Examples.ping <> "vad_output" /\
  Frame.type Examples.ping <> "audio_output" /\
  Frame.type Examples.ping <> "text_output" /\
  forall config now e,
    snd (Router.on_message config now Examples.ping) <> throw e.
Proof.
  split; [discriminate|]. split; [discriminate|]. split; [discriminate|].
  intros config now e. destruct config as [s r []]; discriminate.
Qed.

(** C2, as the code has it: for every inbound audio_output frame, if its
    question is present and not empty the router first emits the user
    message with that content; then, if its answer is present and not
    empty, the assistant message with that content, the frame's [end] and
    the frame's clip identifier; and in every case it registers the audio
    hand-off with a 200 ms timer.  Run on the timers, the text events are
    observed at the time of receipt, and the hand-off is observed after
    them, once 200 ms have passed and not before. *)
Theorem audio_output_text_then_audio
  (config : Router.SocketConfig) (now : Z) (message : Frame.t) :
  Frame.type message = "audio_output" ->
  let texts :=
    (if truthy (Frame.question message)
     then [Router.onMessage
             (Msg.mk "user_message" None false "user"
                (Frame.question message) now None)]
     else []) ++
    (if truthy (Frame.answer message)
     then [Router.onMessage
             (Msg.mk "assistant_message" (Some (Frame.id message)) false
                "assistant" (Frame.answer message) now
                (Some (Frame.end_ message)))]
     else []) in
  let handOff := Router.onAudioMessage (mkAudioOutput message now) in
  Router.on_message config now message
    = (texts ++ [Router.setTimeout handOff 200], normal tt) /\
  forall (l : Router.Loop) (dt : Z),
    Router.clock l = now ->
    Router.observed (Router.advance dt (Router.receive config message l))
    = Router.observed l
      ++ map (fun a => (now, a)) texts
      ++ map (fun t => (now + dt, snd t))
           (filter (Router.due (now + dt)) (Router.timers l))
      ++ (if 200 <=? dt then [(now + dt, handOff)] else []).
Proof.
  intros Haudio texts handOff.
  assert (Hact : Router.on_message config now message
    = (texts ++ [Router.setTimeout handOff 200], normal tt)).
  { unfold Router.on_message.
    rewrite (not_vad config now message)
      by (rewrite Haudio; discriminate).
    rewrite Haudio. cbn [String.eqb Ascii.eqb Bool.eqb app].
    rewrite app_assoc. unfold texts, Router.on_question, Router.on_answer.
    destruct (Frame.question message) as [q|];
      destruct (Frame.answer message) as [a|]; reflexivity. }
  split; [exact Hact|].
  intros l dt Hclock.
  unfold Router.receive. rewrite Hclock, Hact. cbn [fst].
  rewrite fold_perform_app, (fold_perform_plain texts).
  2:{ intros a Hin. unfold texts in Hin.
      apply (texts_plain now message a).
      unfold Router.on_question, Router.on_answer.
      destruct (Frame.question message) as [q|];
        destruct (Frame.answer message) as [b|]; exact Hin. }
  cbn [fold_left Router.perform Router.clock Router.timers Router.observed].
  unfold Router.advance.
  cbn [Router.clock Router.timers Router.observed].
  rewrite Hclock, filter_due_last, map_app, <- !app_assoc.
  do 3 f_equal.
  unfold Router.due at 1. cbn [fst].
  destruct (Z.leb_spec 200 dt), (Z.leb_spec (now + 200) (now + dt));
    try lia; reflexivity.
Qed.

Lemma audio_output_text_then_audio_witness :
  Router.on_message Examples.chat 0 Examples.hiHello
  = ([Router.onMessage
        (Msg.mk "user_message" None false "user" (Some "hi") 0 None);
      Router.onMessage
        (Msg.mk "assistant_message" (Some "clip-1") false "assistant"
           (Some "hello") 0 (Some false));
      Router.setTimeout
        (Router.onAudioMessage (mkAudioOutput Examples.hiHello 0)) 200],
     normal tt).
Proof.
  exact (proj1 (audio_output_text_then_audio
                  Examples.chat 0 Examples.hiHello eq_refl)).
Defined.

(** The frame of the specification on the timers: after 199 ms only the
    two text events have been observed, after 200 ms the hand-off too. *)
Example hiHello_timeline :
  let l := Router.receive Examples.chat Examples.hiHello
             (Router.mkLoop 0 [] []) in
  map snd (Router.observed (Router.advance 199 l))
  = [Router.onMessage
       (Msg.mk "user_message" None false "user" (Some "hi") 0 None);
     Router.onMessage
       (Msg.mk "assistant_message" (Some "clip-1") false "assistant"
          (Some "hello") 0 (Some false))] /\
  Router.observed (Router.advance 200 l)
  = [(0, Router.onMessage
           (Msg.mk "user_message" None false "user" (Some "hi") 0 None));
     (0, Router.onMessage
           (Msg.mk "assistant_message" (Some "clip-1") false "assistant"
              (Some "hello") 0 (Some false)));
     (200, Router.onAudioMessage (mkAudioOutput Examples.hiHello 0))].
Proof. split; reflexivity. Qed.

(** C2 as stated fails on a frame whose question is present and empty:
    the first action is the assistant message, no user message is
    emitted. *)
Lemma empty_question_not_emitted :
  Frame.type Examples.emptyQuestion = "audio_output" /\
  Frame.question Examples.emptyQuestion = Some "" /\
  fst (Router.on_message Examples.chat 0 Examples.emptyQuestion)
  = [Router.onMessage
       (Msg.mk "assistant_message" (Some "clip-2") false "assistant"
          (Some "hello") 0 (Some true));
     Router.setTimeout
       (Router.onAudioMessage (mkAudioOutput Examples.emptyQuestion 0)) 200].
Proof. repeat split. Qed.

(** C8: for every vad_output frame, in chat mode the router calls onVAD
    and then emits a user message of empty content, not from text,
    stamped with the time of receipt; in turn-based mode it emits one
    assistant placeholder of empty content with end = false instead. *)
Theorem vad_output_by_mode
  (config : Router.SocketConfig) (now : Z) (message : Frame.t) :
  Frame.type message = "vad_output" ->
  Router.on_message config now message
  = (if Router.chatMode config
     then [Router.onVAD;
           Router.onMessage
             (Msg.mk "user_vad_message" None false "user" (Some "")
                now None)]
     else [Router.onMessage
             (Msg.mk "assistant_notend_message" (Some "notend begin")
                false "assistant" (Some "") now (Some false))],
     normal tt).
Proof.
  intros Hvad. unfold Router.on_message, Router.on_vad_output.
  rewrite Hvad. cbn [String.eqb Ascii.eqb Bool.eqb].
  rewrite app_nil_r. reflexivity.
Qed.

Lemma vad_output_by_mode_witness :
  Router.on_message Examples.chat 7 Examples.vad
  = ([Router.onVAD;
      Router.onMessage
        (Msg.mk "user_vad_message" None false "user" (Some "") 7 None)],
     normal tt) /\
  Router.on_message Examples.turnBased 7 Examples.vad
  = ([Router.onMessage
        (Msg.mk "assistant_notend_message" (Some "notend begin") false
           "assistant" (Some "") 7 (Some false))],
     normal tt).
Proof.
  split.
  - exact (vad_output_by_mode Examples.chat 7 Examples.vad eq_refl).
  - exact (vad_output_by_mode Examples.turnBased 7 Examples.vad eq_refl).
Defined.

(** C7, as the code has it: for every call sendUserInput(text), the text
    is forwarded to the send channel of the client if there is one (after
    connect) and the call completes normally; if text is "new topic" no
    local event is emitted; otherwise the assistant placeholder (empty
    content, end = false) is emitted in both modes, preceded by the local
    user message of content text if and only if the mode is chat. *)
Theorem sendUserInput_events (text : string) (now : Z) (s : Router.State) :
  let o := Router.sendUserInput text now s in
  let placeholder :=
    Router.onMessage
      (Msg.mk "assistant_notend_message" (Some "notend begin") false
         "assistant" (Some "") now (Some false)) in
  let echo :=
    Router.onMessage
      (Msg.mk "user_message" None false "user" (Some text) now None) in
  Router.result o = normal tt /\
  Router.state o
  = Router.mkState
      (option_map (Router.send (Router.UserInput text)) (Router.client s))
      (Router.readyState s) (Router.curChatMode s) /\
  Router.transmitted (Router.state o)
  = match Router.client s with
    | Some c => Router.sent c ++ [Router.UserInput text]
    | None => []
    end /\
  Router.actions o
  = if (text =? "new topic")%string then []
    else if Router.curChatMode s then [echo; placeholder]
    else [placeholder].
Proof.
  unfold Router.sendUserInput.
  destruct (text =? "new topic")%string;
    destruct (Router.curChatMode s) eqn:Hmode;
    cbn [Router.result Router.state Router.actions];
    unfold Router.transmitted, Router.optional; cbn [Router.client];
    destruct (Router.client s) as [c|];
    repeat split; rewrite ?Hmode; reflexivity.
Qed.

(** C7 as stated fails twice on one call: before connect, in turn-based
    mode, sendUserInput "hello" forwards nothing, and it emits the
    assistant placeholder although the mode is not chat. *)
Lemma sendUserInput_turn_based_placeholder :
  Router.curChatMode Router.initial = false /\
  Router.transmitted
    (Router.state (Router.sendUserInput "hello" 3 Router.initial)) = [] /\
  Router.actions (Router.sendUserInput "hello" 3 Router.initial)
  = [Router.onMessage
       (Msg.mk "assistant_notend_message" (Some "notend begin") false
          "assistant" (Some "") 3 (Some false))] /\
  Router.curChatMode Examples.connected = false /\
  Router.actions (Router.sendUserInput "hello" 3 Examples.connected)
  = [Router.onMessage
       (Msg.mk "assistant_notend_message" (Some "notend begin") false
          "assistant" (Some "") 3 (Some false))].
Proof. repeat split. Qed.

(** C10: while the client reference is null (connect was never called),
    sendSessionSettings, sendAudio, sendAssistantInput,
    sendPauseAssistantMessage and sendResumeAssistantMessage complete
    normally, take no action, leave the state as it is and hand nothing
    to any transport; disconnect completes normally and only sets the
    ready state to idle. *)
Theorem not_connected_calls_are_inert (s : Router.State) :
  Router.client s = None ->
  (forall sessionSettings,
     Router.sendSessionSettings sessionSettings s
     = Router.mkOutcome s [] (normal tt)) /\
  (forall arrayBuffer isPlaying,
     Router.sendAudio arrayBuffer isPlaying s
     = Router.mkOutcome s [] (normal tt)) /\
  (forall text,
     Router.sendAssistantInput text s = Router.mkOutcome s [] (normal tt)) /\
  Router.sendPauseAssistantMessage s = Router.mkOutcome s [] (normal tt) /\
  Router.sendResumeAssistantMessage s = Router.mkOutcome s [] (normal tt) /\
  Router.transmitted s = [] /\
  Router.disconnect s
  = Router.mkOutcome
      (Router.mkState None Router.IDLE (Router.curChatMode s)) []
      (normal tt).
Proof.
  destruct s as [client readyState curChatMode]. cbn [Router.client].
  intros ->. repeat split.
Qed.

Lemma not_connected_calls_are_inert_witness :
  Router.sendAudio Examples.pcm true Router.initial
  = Router.mkOutcome Router.initial [] (normal tt) /\
  Router.disconnect Router.initial
  = Router.mkOutcome Router.initial [] (normal tt).
Proof.
  destruct (not_connected_calls_are_inert Router.initial eq_refl)
    as (_ & Haudio & _ & _ & _ & _ & Hdisconnect).
  split; [apply Haudio|exact Hdisconnect].
Defined.

(* ================================================================== *)
(** * The sound player                                                 *)
(* ================================================================== *)

Section PlayerFacts.

Import Player.

Lemma alter_length {A} (f : A -> A) (l : list A) :
  forall n, List.length (alter f n l) = List.length l.
Proof.
  induction l as [|x l IH]; intros [|n]; cbn; auto.
Qed.

Lemma nth_error_alter {A} (f : A -> A) (l : list A) :
  forall n i,
    nth_error (alter f n l) i
    = if Nat.eqb i n then option_map f (nth_error l i)
      else nth_error l i.
Proof.
  induction l as [|x l IH]; intros [|n] [|i]; cbn; auto.
  destruct (Nat.eqb i n); reflexivity.
Qed.

Lemma In_sounding (w : World) (n : nat) :
  In n (sounding w) <->
  exists s, node w n = Some s /\ sounds s = true.
Proof.
  unfold sounding, node. rewrite filter_In, in_seq. split.
  - intros [_ H]. destruct (nth_error (nodes w) n) as [s|];
      [exists s; auto|discriminate].
  - intros (s & Hn & Hs). rewrite Hn. split; [|exact Hs].
    assert (n < List.length (nodes w))%nat
      by (apply nth_error_Some; congruence).
    lia.
Qed.

(** [playNextClip] completes normally in every state. *)
Lemma playNextClip_normal (w : World) : fst (playNextClip w) = normal tt.
Proof.
  unfold playNextClip, bind, read.
  destruct (analyserNode w), (audioContext w); try reflexivity.
  destruct (clipQueue w) as [|nextClip rest]; [reflexivity|].
  destruct (isProcessing w); reflexivity.
Qed.

(** [clearQueue], with the monad unfolded. *)
Lemma clearQueue_eq (w : World) :
  clearQueue w
  = (normal tt,
     set_fft generateEmptyFft
       (set_isPlaying false
          (set_isProcessing false
             (set_clipQueue []
                match currentlyPlayingAudioBuffer w with
                | Some n =>
                    set_currentlyPlayingAudioBuffer None
                      (set_nodes
                         (alter
                            (fun s => mkNode (node_buffer s) (connected s)
                                        false (ended_pending s))
                            n (nodes w))
                         w)
                | None => w
                end)))).
Proof.
  unfold clearQueue, bind, read, modify, stop, update_node.
  destruct (currentlyPlayingAudioBuffer w); reflexivity.
Qed.

Lemma playNextClip_eq (w : World) :
  playNextClip w
  = (normal tt,
     match analyserNode w, audioContext w with
     | Some _, Some _ =>
         match clipQueue w with
         | [] => w
         | nextClip :: rest =>
             if isProcessing w then w
             else
               let fresh := List.length (nodes w) in
               set_calls (calls w ++ [onPlayAudio (id nextClip)])
                 (set_nodes
                    (alter
                       (fun s => mkNode (node_buffer s) (connected s)
                                   true true)
                       fresh
                       (nodes w
                          ++ [mkNode (buffer nextClip) true false false]))
                    (set_frequencyDataIntervalId (Some (nextIntervalId w))
                       (set_nextIntervalId (S (nextIntervalId w))
                          (set_intervals
                             (intervals w ++ [(nextIntervalId w, fresh)])
                             (set_currentlyPlayingAudioBuffer (Some fresh)
                                (set_isPlaying true
                                   (set_isProcessing true
                                      (set_clipQueue rest w))))))))
         end
     | _, _ =>
         set_calls
           (calls w ++ [onError "Audio environment is not initialized"]) w
     end).
Proof.
  unfold playNextClip, bind, read.
  destruct (analyserNode w), (audioContext w); try reflexivity.
  destruct (clipQueue w) as [|nextClip rest] eqn:Hqueue; [reflexivity|].
  destruct (isProcessing w); [reflexivity|].
  cbn [Nat.eqb List.length orb].
  destruct w; reflexivity.
Qed.

(** [addToQueue] on an initialised player and a clip that decodes. *)
Lemma addToQueue_decoded (message : AudioOutput)
  (audioBuffer : Decoder.AudioBuffer) (w : World) :
  notInitialized w = false ->
  Decoder.decode (Frame.data (frame message)) = inl audioBuffer ->
  addToQueue message w
  = let w1 :=
      set_clipQueue
        (clipQueue w ++ [mkClip (Frame.id (frame message)) audioBuffer])
        w in
    if Nat.eqb (List.length (clipQueue w1)) 1 then playNextClip w1
    else (normal tt, w1).
Proof.
  intros Hinit Hdec.
  unfold addToQueue, bind at 1, read at 1. rewrite Hinit.
  unfold tryCatch, bind at 1, decodeClip. rewrite Hdec. cbv zeta.
  unfold ret at 1, bind at 1, modify at 1, bind at 1, read at 1, when.
  cbv beta iota.
  destruct (Nat.eqb _ 1).
  - rewrite playNextClip_eq. reflexivity.
  - reflexivity.
Qed.

(** [addToQueue] before [initPlayer], and on bytes that do not decode. *)
Lemma addToQueue_blocked (message : AudioOutput) (w : World) :
  notInitialized w = true ->
  addToQueue message w
  = (normal tt,
     set_calls
       (calls w ++ [onError "Audio player has not been initialized"]) w).
Proof.
  intros Hinit. unfold addToQueue, bind at 1, read at 1. rewrite Hinit.
  reflexivity.
Qed.

Lemma addToQueue_undecodable (message : AudioOutput) (e : string)
  (w : World) :
  notInitialized w = false ->
  Decoder.decode (Frame.data (frame message)) = inr e ->
  addToQueue message w
  = (normal tt,
     set_calls
       (calls w ++ [onError ("Failed to add clip to queue: " ++ e)%string])
       w).
Proof.
  intros Hinit Hdec. unfold addToQueue, bind at 1, read at 1. rewrite Hinit.
  unfold tryCatch, bind at 1, decodeClip. rewrite Hdec. reflexivity.
Qed.

End PlayerFacts.

(** C9: addToQueue completes normally in every state and for every
    message.  Called before initPlayer (or after stopAll) it calls
    onError with "Audio player has not been initialized" and changes
    nothing else.  When decoding the bytes fails it calls onError with a
    message, the clip is not enqueued, and the queue and the playback
    state are as they were. *)
Theorem addToQueue_reports (message : AudioOutput) (w : Player.World) :
  fst (Player.addToQueue message w) = normal tt /\
  (Player.notInitialized w = true ->
   snd (Player.addToQueue message w)
   = Player.set_calls
       (Player.calls w
          ++ [Player.onError "Audio player has not been initialized"]) w) /\
  (forall e,
     Player.notInitialized w = false ->
     Decoder.decode (Frame.data (frame message)) = inr e ->
     snd (Player.addToQueue message w)
     = Player.set_calls
         (Player.calls w
            ++ [Player.onError
                  ("Failed to add clip to queue: " ++ e)%string]) w).
Proof.
  split; [|split].
  - destruct (Player.notInitialized w) eqn:Hinit.
    + rewrite (addToQueue_blocked message w Hinit). reflexivity.
    + destruct (Decoder.decode (Frame.data (frame message)))
        as [audioBuffer|e] eqn:Hdec.
      * rewrite (addToQueue_decoded message audioBuffer w Hinit Hdec).
        cbv zeta.
        match goal with |- context [if ?c then _ else _] => destruct c end;
          [apply playNextClip_normal|reflexivity].
      * rewrite (addToQueue_undecodable message e w Hinit Hdec).
        reflexivity.
  - intros Hinit. rewrite (addToQueue_blocked message w Hinit). reflexivity.
  - intros e Hinit Hdec.
    rewrite (addToQueue_undecodable message e w Hinit Hdec). reflexivity.
Qed.

Lemma addToQueue_reports_witness :
  snd (Player.addToQueue Examples.A Player.initial)
  = Player.set_calls
      [Player.onError "Audio player has not been initialized"]
      Player.initial /\
  snd (Player.addToQueue Examples.empty
         (snd (Player.initPlayer Player.initial)))
  = Player.set_calls
      [Player.onError
         "Failed to add clip to queue: The number of frames provided (0) is less than or equal to the minimum bound (0)."]
      (snd (Player.initPlayer Player.initial)).
Proof.
  split.
  - exact (proj1 (proj2 (addToQueue_reports Examples.A Player.initial))
             eq_refl).
  - exact (proj2 (proj2 (addToQueue_reports Examples.empty
                           (snd (Player.initPlayer Player.initial))))
             _ eq_refl eq_refl).
Defined.

(** C5: in every state with an active clip, whatever waits in the queue,
    clearQueue completes at once and leaves the active node stopped (its
    ended event still to come: it did not wait for the clip to finish),
    the active-clip reference cleared, the queue empty, processing false,
    the playing flag false and the spectrum snapshot idle; it leaves the
    initialisation as it was, so that on an initialised player the next
    decodable clip enqueued starts to sound at once. *)
Theorem clearQueue_interrupts (w : Player.World) (n : nat) :
  Player.currentlyPlayingAudioBuffer w = Some n ->
  let w' := snd (Player.clearQueue w) in
  fst (Player.clearQueue w) = normal tt /\
  ~ In n (Player.sounding w') /\
  (forall s, Player.node w n = Some s ->
     Player.node w' n
     = Some (Player.mkNode (Player.node_buffer s) (Player.connected s)
               false (Player.ended_pending s))) /\
  Player.currentlyPlayingAudioBuffer w' = None /\
  Player.clipQueue w' = [] /\
  Player.isProcessing w' = false /\
  Player.isPlaying w' = false /\
  Player.fft w' = Player.generateEmptyFft /\
  Player.notInitialized w' = Player.notInitialized w /\
  Player.analyserNode w' = Player.analyserNode w /\
  forall message audioBuffer,
    Player.notInitialized w = false ->
    Player.analyserNode w <> None ->
    Decoder.decode (Frame.data (frame message)) = inl audioBuffer ->
    let w'' := snd (Player.addToQueue message w') in
    let fresh := List.length (Player.nodes w) in
    fst (Player.addToQueue message w') = normal tt /\
    Player.currentlyPlayingAudioBuffer w'' = Some fresh /\
    Player.node w'' fresh = Some (Player.mkNode audioBuffer true true true) /\
    In fresh (Player.sounding w'') /\
    Player.isProcessing w'' = true /\
    Player.isPlaying w'' = true /\
    Player.clipQueue w'' = [] /\
    Player.calls w''
    = Player.calls w ++ [Player.onPlayAudio (Frame.id (frame message))].
Proof.
  intros Hactive w'.
  assert (Hw' : w'
    = Player.set_fft Player.generateEmptyFft
        (Player.set_isPlaying false
           (Player.set_isProcessing false
              (Player.set_clipQueue []
                 (Player.set_currentlyPlayingAudioBuffer None
                    (Player.set_nodes
                       (Player.alter
                          (fun s => Player.mkNode (Player.node_buffer s)
                                      (Player.connected s) false
                                      (Player.ended_pending s))
                          n (Player.nodes w))
                       w)))))).
  { unfold w'. rewrite clearQueue_eq, Hactive. reflexivity. }
  clearbody w'. subst w'.
  rewrite clearQueue_eq.
  split; [reflexivity|].
  split.
  { rewrite In_sounding. unfold Player.node.
    cbn [Player.nodes Player.set_fft Player.set_isPlaying
           Player.set_isProcessing Player.set_clipQueue
           Player.set_currentlyPlayingAudioBuffer Player.set_nodes].
    rewrite nth_error_alter, Nat.eqb_refl.
    intros (s & Hs & Hsounds).
    destruct (nth_error (Player.nodes w) n) as [s0|]; [|discriminate].
    cbn in Hs. injection Hs as <-. discriminate. }
  split.
  { intros s Hs. unfold Player.node in *.
    cbn [Player.nodes Player.set_fft Player.set_isPlaying
           Player.set_isProcessing Player.set_clipQueue
           Player.set_currentlyPlayingAudioBuffer Player.set_nodes].
    rewrite nth_error_alter, Nat.eqb_refl, Hs. reflexivity. }
  do 7 (split; [reflexivity|]).
  intros message audioBuffer Hinit Hanalyser Hdec.
  rewrite (addToQueue_decoded message audioBuffer) by assumption.
  cbv zeta. rewrite playNextClip_eq.
  destruct (Player.analyserNode w) as [a|] eqn:Ha; [|congruence].
  unfold Player.notInitialized in Hinit.
  destruct (Player.isInitialized w) eqn:Hi; [|discriminate].
  destruct (Player.audioContext w) as [c|] eqn:Hc; [|discriminate].
  destruct w as [playing0 fft0 context analyser initialized queue processing
                   current interval nodes0 intervals0 nextI nextC closing0
                   calls0].
  cbn [Player.analyserNode Player.audioContext] in Ha, Hc. subst.
  unfold Player.node.
  cbn -[Player.alter Player.sounding nth_error].
  rewrite alter_length.
  assert (Hnode :
    nth_error
      (Player.alter
         (fun s => Player.mkNode (Player.node_buffer s) (Player.connected s)
                     true true)
         (List.length nodes0)
         (Player.alter
            (fun s => Player.mkNode (Player.node_buffer s)
                        (Player.connected s) false (Player.ended_pending s))
            n nodes0
          ++ [Player.mkNode audioBuffer true false false]))
      (List.length nodes0)
    = Some (Player.mkNode audioBuffer true true true)).
  { rewrite nth_error_alter, Nat.eqb_refl.
    rewrite nth_error_app2 by (rewrite alter_length; lia).
    rewrite alter_length, Nat.sub_diag. reflexivity. }
  split; [reflexivity|]. split; [reflexivity|].
  split; [exact Hnode|].
  split.
  { apply In_sounding. eexists. split; [exact Hnode|reflexivity]. }
  repeat split.
Qed.

Lemma clearQueue_interrupts_witness :
  exists w,
    Examples.busy = Some w /\
    Player.currentlyPlayingAudioBuffer w = Some 0%nat /\
    map Player.id (Player.clipQueue w) = ["B"; "C"] /\
    ~ In 0%nat (Player.sounding (snd (Player.clearQueue w))) /\
    Player.clipQueue (snd (Player.clearQueue w)) = [] /\
    Player.isProcessing (snd (Player.clearQueue w)) = false.
Proof.
  eexists. split; [vm_compute; reflexivity|].
  match goal with
  | |- Player.currentlyPlayingAudioBuffer ?w = _ /\ _ =>
      destruct (clearQueue_interrupts w 0 eq_refl)
        as (_ & Hsilent & _ & _ & Hqueue & Hprocessing & _)
  end.
  split; [reflexivity|]. split; [reflexivity|].
  split; [exact Hsilent|]. split; [exact Hqueue|exact Hprocessing].
Defined.

(** C3 fails on the code.  The [ended] event of a node that clearQueue
    stopped is dispatched after the next clip has started: its handler
    resets processing and the active-clip reference of the new clip, and
    the clip enqueued next starts while that one still sounds. *)
Theorem stale_ended_overlaps_clips :
  exists w1 w2,
    Player.run
      [Player.InitPlayer; Player.AddToQueue Examples.A; Player.ClearQueue;
       Player.AddToQueue Examples.B; Player.Ended 0]
      Player.initial = Some w1 /\
    Player.sounding w1 = [1%nat] /\
    Player.isProcessing w1 = false /\
    Player.currentlyPlayingAudioBuffer w1 = None /\
    Player.run [Player.AddToQueue Examples.C] w1 = Some w2 /\
    Player.sounding w2 = [1%nat; 2%nat] /\
    Player.calls w2
    = [Player.onPlayAudio "A"; Player.onPlayAudio "B";
       Player.onPlayAudio "C"].
Proof.
  eexists. eexists.
  split; [vm_compute; reflexivity|].
  repeat split; vm_compute; reflexivity.
Qed.

(** C6 fails on the code.  clearQueue stops the clip and leaves its
    interval set: nothing sounds and the sampling callback still runs and
    overwrites the idle snapshot; stopAll and the [ended] handler clear
    the interval.  Once a new clip has started, the id of the old
    interval is overwritten and no later event clears it. *)
Theorem clearQueue_leaves_sampling_task :
  exists w w' leaked,
    Player.run
      [Player.InitPlayer; Player.AddToQueue Examples.A; Player.ClearQueue]
      Player.initial = Some w /\
    Player.sounding w = [] /\
    Player.sampling w = [1%nat] /\
    Player.step (Player.Interval 1 (Some [7%N])) w = Some w' /\
    Player.fft w' = Player.barkFrequencies [7%N] /\
    option_map Player.sampling
      (Player.run
         [Player.InitPlayer; Player.AddToQueue Examples.A; Player.StopAll]
         Player.initial) = Some [] /\
    option_map Player.sampling
      (Player.run
         [Player.InitPlayer; Player.AddToQueue Examples.A; Player.Ended 0]
         Player.initial) = Some [] /\
    Player.run
      [Player.AddToQueue Examples.B; Player.Ended 0; Player.Ended 1]
      w = Some leaked /\
    Player.sounding leaked = [] /\
    Player.sampling leaked = [1%nat].
Proof.
  eexists. eexists. eexists.
  split; [vm_compute; reflexivity|].
  split; [vm_compute; reflexivity|].
  split; [vm_compute; reflexivity|].
  split; [vm_compute; reflexivity|].
  split; [vm_compute; reflexivity|].
  split; [vm_compute; reflexivity|].
  split; [vm_compute; reflexivity|].
  split; [vm_compute; reflexivity|].
  split; vm_compute; reflexivity.
Qed.

(* ================================================================== *)
(** * What the scheduler does keep                                     *)
(* ================================================================== *)

(** Two facts that stand beside the failures above.  The order of
    playback is the order of enqueueing along every trace; and one clip
    at most sounds as long as every [ended] event is timely. *)

Section Order.

Import Player.

Lemma Subseq_nil_l {A} (ys : list A) : Subseq [] ys.
Proof. induction ys; constructor; assumption. Qed.

Lemma Subseq_snoc_skip {A} (xs ys : list A) (y : A) :
  Subseq xs ys -> Subseq xs (ys ++ [y]).
Proof.
  induction 1; cbn.
  - apply Subseq_nil_l.
  - apply Subseq_skip. assumption.
  - apply Subseq_take. assumption.
Qed.

Lemma Subseq_snoc_take {A} (xs ys : list A) (x : A) :
  Subseq xs ys -> Subseq (xs ++ [x]) (ys ++ [x]).
Proof.
  induction 1; cbn.
  - apply Subseq_take, Subseq_nil.
  - apply Subseq_skip. assumption.
  - apply Subseq_take. assumption.
Qed.

Lemma Subseq_prefix {A} (xs zs ys : list A) :
  Subseq (xs ++ zs) ys -> Subseq xs ys.
Proof.
  intros H. remember (xs ++ zs) as l eqn:Hl. revert xs zs Hl.
  induction H as [|y l ys H IH|x l ys H IH]; intros xs zs Hl.
  - destruct xs; [constructor|discriminate].
  - apply Subseq_skip. apply (IH xs zs Hl).
  - destruct xs as [|x' xs].
    + apply Subseq_nil_l.
    + injection Hl as <- ->. apply Subseq_take. apply (IH xs zs eq_refl).
Qed.

(** The clips announced and the clips waiting, in order. *)
Lemma played_app (w : World) (c : Call) :
  played (set_calls (calls w ++ [c]) w)
  = played w ++ match c with onPlayAudio id => [id] | onError _ => [] end.
Proof.
  unfold played. destruct w; cbn [calls set_calls].
  rewrite flat_map_app. cbn. rewrite app_nil_r. reflexivity.
Qed.

Lemma playNextClip_order (w : World) :
  played (snd (playNextClip w))
    ++ map id (clipQueue (snd (playNextClip w)))
  = played w ++ map id (clipQueue w).
Proof.
  rewrite playNextClip_eq. cbn [snd].
  destruct (analyserNode w), (audioContext w);
    try (rewrite played_app, app_nil_r; reflexivity).
  destruct (clipQueue w) as [|nextClip rest] eqn:Hqueue;
    [rewrite Hqueue; reflexivity|].
  destruct (isProcessing w); [rewrite Hqueue; reflexivity|].
  destruct w. cbn [clipQueue] in Hqueue. subst.
  unfold played. cbn. rewrite flat_map_app, <- app_assoc. reflexivity.
Qed.

Lemma addToQueue_order (message : AudioOutput) (w : World) :
  let w' := snd (addToQueue message w) in
  let lineup w := played w ++ map id (clipQueue w) in
  lineup w' = lineup w \/
  lineup w' = lineup w ++ [Frame.id (frame message)].
Proof.
  cbv zeta.
  destruct (notInitialized w) eqn:Hinit.
  - left. rewrite (addToQueue_blocked message w Hinit). cbn [snd].
    rewrite played_app, app_nil_r. reflexivity.
  - destruct (Decoder.decode (Frame.data (frame message)))
      as [audioBuffer|e] eqn:Hdec.
    + right. rewrite (addToQueue_decoded message audioBuffer w Hinit Hdec).
      cbv zeta.
      match goal with |- context [if ?c then _ else _] => destruct c end.
      * rewrite playNextClip_order. destruct w. cbn.
        rewrite map_app, app_assoc. reflexivity.
      * destruct w. cbn. rewrite map_app, app_assoc. reflexivity.
    + left. rewrite (addToQueue_undecodable message e w Hinit Hdec).
      cbn [snd]. rewrite played_app, app_nil_r. reflexivity.
Qed.

(** The [ended] handler: the node is silenced, the gate is opened, then
    [playNextClip] runs. *)
Lemma ended_eq (n : nat) (w : World) :
  exists w0,
    handler (Ended n) w w = playNextClip w0 /\
    calls w0 = calls w /\
    clipQueue w0 = clipQueue w /\
    nodes w0
    = alter (fun s => mkNode (node_buffer s) false (playing s)
                        (ended_pending s))
        n
        (alter (fun s => mkNode (node_buffer s) (connected s) false false)
           n (nodes w)) /\
    currentlyPlayingAudioBuffer w0 = None /\
    isProcessing w0 = false.
Proof.
  destruct w as [playing0 fft0 context analyser initialized queue processing
                   current interval nodes0 intervals0 nextI nextC closing0
                   calls0].
  unfold handler, onended, clearSampling, clearInterval, disconnect,
    update_node, bind, read, modify, ret.
  destruct interval as [[|i]|]; eexists; (split; [reflexivity|]);
    repeat split.
Qed.

Lemma stopAll_eq (w : World) :
  fst (stopAll w) = normal tt /\
  calls (snd (stopAll w)) = calls w /\
  clipQueue (snd (stopAll w)) = [] /\
  nodes (snd (stopAll w))
  = match currentlyPlayingAudioBuffer w with
    | Some n =>
        alter (fun s => mkNode (node_buffer s) false (playing s)
                          (ended_pending s))
          n (nodes w)
    | None => nodes w
    end /\
  currentlyPlayingAudioBuffer (snd (stopAll w)) = None /\
  isProcessing (snd (stopAll w)) = false.
Proof.
  destruct w as [playing0 fft0 context analyser initialized queue processing
                   current interval nodes0 intervals0 nextI nextC closing0
                   calls0].
  unfold stopAll, clearSampling, clearInterval, disconnect, update_node,
    bind, read, modify, ret.
  destruct interval as [[|i]|], current, analyser, context; repeat split.
Qed.

(** One event moves the line-up no further than this. *)
Lemma step_order (e : Event) (w w' : World) (pre : list string) :
  step e w = Some w' ->
  Subseq (played w ++ map id (clipQueue w)) pre ->
  Subseq (played w' ++ map id (clipQueue w')) (pre ++ enqueued [e]).
Proof.
  unfold step. destruct (enabled e w); [|discriminate].
  intros Hstep Hpre. injection Hstep as <-.
  destruct e as [|message| | |n|i reading|fulfilled];
    cbn [enqueued flat_map app]; rewrite ?app_nil_r.
  - destruct w; exact Hpre.
  - cbn [handler].
    destruct (addToQueue_order message w) as [Hsame|Hmore]; cbv zeta in *.
    + rewrite Hsame. apply Subseq_snoc_skip, Hpre.
    + rewrite Hmore. apply Subseq_snoc_take, Hpre.
  - cbn [handler]. destruct (stopAll_eq w) as (_ & Hcalls & Hqueue & _).
    rewrite Hqueue. unfold played. rewrite Hcalls. cbn [map].
    rewrite app_nil_r. apply (Subseq_prefix _ _ _ Hpre).
  - cbn [handler]. rewrite clearQueue_eq. cbn [snd].
    apply (Subseq_prefix _ (map id (clipQueue w))).
    destruct w as [? ? ? ? ? ? ? [current|] ? ? ? ? ? ? ?];
      cbn; rewrite app_nil_r; exact Hpre.
  - destruct (ended_eq n w) as (w0 & Heq & Hcalls & Hqueue & _).
    rewrite Heq, playNextClip_order. unfold played.
    rewrite Hcalls, Hqueue. exact Hpre.
  - cbn [handler]. destruct (closure w i); [|exact Hpre].
    unfold updateFrequencyData, bind, read, modify, ret.
    destruct w as [? ? ? [analyser|] ? ? ? ? ? ? ? ? ? ? ?];
      destruct reading; exact Hpre.
  - destruct w, fulfilled; exact Hpre.
Qed.

Lemma run_order (trace : list Event) :
  forall (w w' : World) (pre : list string),
    run trace w = Some w' ->
    Subseq (played w ++ map id (clipQueue w)) pre ->
    Subseq (played w' ++ map id (clipQueue w')) (pre ++ enqueued trace).
Proof.
  induction trace as [|e rest IH]; intros w w' pre Hrun Hpre.
  - injection Hrun as <-. cbn. rewrite app_nil_r. exact Hpre.
  - cbn [run] in Hrun. destruct (step e w) as [w1|] eqn:Hstep;
      [|discriminate].
    replace (enqueued (e :: rest)) with (enqueued [e] ++ enqueued rest)
      by (unfold enqueued; cbn [flat_map]; rewrite app_nil_r; reflexivity).
    rewrite app_assoc.
    apply (IH w1 w' _ Hrun). apply (step_order e w w1 pre Hstep Hpre).
Qed.

End Order.

(** X1: along every trace from the initial state, the clips announced
    through [onPlayAudio], followed by those still waiting, are clips
    handed to addToQueue, in the order in which they were handed. *)
Theorem playback_follows_enqueue_order
  (trace : list Player.Event) (w : Player.World) :
  Player.run trace Player.initial = Some w ->
  Subseq (Player.played w ++ map Player.id (Player.clipQueue w))
    (Player.enqueued trace).
Proof.
  intros Hrun.
  apply (run_order trace Player.initial w [] Hrun). constructor.
Qed.

Section Exclusion.

Import Player.

Lemma alter_alter {A} (f g : A -> A) (l : list A) :
  forall n, alter f n (alter g n l) = alter (fun x => f (g x)) n l.
Proof.
  induction l as [|x l IH]; intros [|n]; cbn; try reflexivity.
  rewrite IH. reflexivity.
Qed.

(** [exclusive] looks at the nodes, the active-clip reference and the
    gate only. *)
Lemma exclusive_ext (w w' : World) :
  nodes w' = nodes w ->
  currentlyPlayingAudioBuffer w' = currentlyPlayingAudioBuffer w ->
  isProcessing w' = isProcessing w ->
  exclusive w -> exclusive w'.
Proof.
  unfold exclusive, sounding. intros -> -> ->. exact (fun H => H).
Qed.

Lemma exclusive_idle (w : World) :
  exclusive w -> currentlyPlayingAudioBuffer w = None ->
  isProcessing w = false.
Proof.
  intros [_ Hgate] Hcurrent. destruct (isProcessing w); [|reflexivity].
  exfalso. apply (proj1 Hgate eq_refl). exact Hcurrent.
Qed.

(** Silencing the active node, or any node when none is active, closes
    the state on "nothing sounds". *)
Lemma exclusive_silenced (w w' : World) (n : nat)
  (f : AudioBufferSourceNode -> AudioBufferSourceNode) :
  exclusive w ->
  (forall m, currentlyPlayingAudioBuffer w = Some m -> m = n) ->
  (forall s, sounds (f s) = false) ->
  nodes w' = alter f n (nodes w) ->
  currentlyPlayingAudioBuffer w' = None ->
  isProcessing w' = false ->
  exclusive w'.
Proof.
  intros [Hone _] Hactive Hsilent Hnodes Hcurrent Hgate. split.
  - intros i. rewrite Hcurrent, In_sounding. unfold node.
    rewrite Hnodes, nth_error_alter.
    split; [|discriminate].
    intros (s & Hs & Hsounds). exfalso.
    destruct (Nat.eqb_spec i n) as [->|Hne].
    + destruct (nth_error (nodes w) n) as [s0|]; [|discriminate].
      cbn in Hs. injection Hs as <-. rewrite Hsilent in Hsounds.
      discriminate.
    + apply Hne, Hactive, Hone, In_sounding. exists s. auto.
  - rewrite Hcurrent, Hgate. split; [discriminate|congruence].
Qed.

(** Starting a fresh node when none is active makes it the one that
    sounds. *)
Lemma exclusive_started (w w' : World) (b : Decoder.AudioBuffer) :
  exclusive w ->
  currentlyPlayingAudioBuffer w = None ->
  nodes w'
  = alter (fun s => mkNode (node_buffer s) (connected s) true true)
      (List.length (nodes w)) (nodes w ++ [mkNode b true false false]) ->
  currentlyPlayingAudioBuffer w' = Some (List.length (nodes w)) ->
  isProcessing w' = true ->
  exclusive w'.
Proof.
  intros [Hone _] Hnone Hnodes Hcurrent Hgate. split.
  - intros i. rewrite Hcurrent, In_sounding. unfold node.
    rewrite Hnodes, nth_error_alter.
    destruct (Nat.eqb_spec i (List.length (nodes w))) as [->|Hne].
    + rewrite nth_error_app2, Nat.sub_diag by lia. cbn.
      split; [reflexivity|]. intros _. eexists. split; reflexivity.
    + split.
      * intros (s & Hs & Hsounds). exfalso.
        destruct (Nat.lt_ge_cases i (List.length (nodes w))) as [Hlt|Hge].
        -- rewrite nth_error_app1 in Hs by exact Hlt.
           assert (Hi : currentlyPlayingAudioBuffer w = Some i)
             by (apply Hone, In_sounding; exists s; auto).
           congruence.
        -- assert (Hnth : nth_error (nodes w ++ [mkNode b true false false]) i
                          = None).
           { apply nth_error_None. rewrite length_app. cbn. lia. }
           congruence.
      * intros Hi. injection Hi as <-. contradiction.
  - rewrite Hcurrent, Hgate. split; [discriminate|reflexivity].
Qed.

Lemma playNextClip_exclusive (w : World) :
  exclusive w -> exclusive (snd (playNextClip w)).
Proof.
  intros Hw. rewrite playNextClip_eq. cbn [snd].
  destruct (analyserNode w), (audioContext w);
    try (apply (exclusive_ext w); [destruct w; reflexivity ..|exact Hw]).
  destruct (clipQueue w) as [|nextClip rest]; [exact Hw|].
  destruct (isProcessing w) eqn:Hgate; [exact Hw|].
  assert (Hnone : currentlyPlayingAudioBuffer w = None).
  { destruct (currentlyPlayingAudioBuffer w) as [m|] eqn:Hm;
      [|reflexivity].
    destruct Hw as [_ Hiff]. rewrite Hgate, Hm in Hiff.
    assert (false = true) by (apply Hiff; discriminate). discriminate. }
  apply (exclusive_started w _ (buffer nextClip) Hw Hnone);
    destruct w; reflexivity.
Qed.

(** A timely event keeps the state exclusive. *)
Lemma step_exclusive (e : Event) (w w' : World) :
  timely e w = true -> step e w = Some w' ->
  exclusive w -> exclusive w'.
Proof.
  unfold step. destruct (enabled e w); [|discriminate].
  intros Htimely Hstep Hw. injection Hstep as <-.
  destruct e as [|message| | |n|i reading|fulfilled].
  - apply (exclusive_ext w); [destruct w; reflexivity ..|exact Hw].
  - cbn [handler]. destruct (notInitialized w) eqn:Hinit.
    + rewrite (addToQueue_blocked message w Hinit).
      apply (exclusive_ext w); [destruct w; reflexivity ..|exact Hw].
    + destruct (Decoder.decode (Frame.data (frame message)))
        as [audioBuffer|err] eqn:Hdec.
      * rewrite (addToQueue_decoded message audioBuffer w Hinit Hdec).
        cbv zeta.
        match goal with |- context [if ?c then _ else _] => destruct c end.
        -- apply playNextClip_exclusive.
           apply (exclusive_ext w); [destruct w; reflexivity ..|exact Hw].
        -- apply (exclusive_ext w); [destruct w; reflexivity ..|exact Hw].
      * rewrite (addToQueue_undecodable message err w Hinit Hdec).
        apply (exclusive_ext w); [destruct w; reflexivity ..|exact Hw].
  - cbn [handler].
    destruct (stopAll_eq w) as (_ & _ & _ & Hnodes & Hcurrent & Hgate).
    destruct (currentlyPlayingAudioBuffer w) as [m|] eqn:Hm.
    + apply (fun Hactive Hsilent =>
               exclusive_silenced w _ m _ Hw Hactive Hsilent
                 Hnodes Hcurrent Hgate).
      * intros m' Hm'. congruence.
      * intros s. unfold sounds. cbn. apply andb_false_r.
    + apply (exclusive_ext w); try assumption; [congruence|].
      rewrite Hgate. symmetry. apply (exclusive_idle w Hw Hm).
  - cbn [handler]. rewrite clearQueue_eq. cbn [snd].
    destruct (currentlyPlayingAudioBuffer w) as [m|] eqn:Hm.
    + apply (exclusive_silenced w _ m
               (fun s => mkNode (node_buffer s) (connected s) false
                           (ended_pending s)) Hw);
        [intros m' Hm' | intros s | destruct w ..]; try reflexivity.
      congruence.
    + apply (exclusive_ext w);
        [destruct w; reflexivity | destruct w; cbn in *; congruence | |
         exact Hw].
      rewrite (exclusive_idle w Hw Hm). destruct w; reflexivity.
  - destruct (ended_eq n w) as (w0 & Heq & _ & _ & Hnodes & Hcurrent & Hgate).
    rewrite Heq. apply playNextClip_exclusive.
    rewrite alter_alter in Hnodes.
    apply (fun Hactive Hsilent =>
             exclusive_silenced w w0 n _ Hw Hactive Hsilent
               Hnodes Hcurrent Hgate).
    + intros m Hm. cbn [timely] in Htimely. rewrite Hm in Htimely.
      apply Nat.eqb_eq in Htimely. congruence.
    + intros s. reflexivity.
  - cbn [handler]. destruct (closure w i); [|exact Hw].
    unfold updateFrequencyData, bind, read, modify, ret.
    destruct w as [? ? ? [analyser|] ? ? ? ? ? ? ? ? ? ? ?];
      destruct reading; exact Hw.
  - apply (exclusive_ext w); [destruct w, fulfilled; reflexivity ..|exact Hw].
Qed.

Lemma run_timely_exclusive (trace : list Event) :
  forall w w', run_timely trace w = Some w' -> exclusive w -> exclusive w'.
Proof.
  induction trace as [|e rest IH]; intros w w' Hrun Hw.
  - injection Hrun as <-. exact Hw.
  - cbn [run_timely] in Hrun.
    destruct (timely e w) eqn:Htimely; [|discriminate].
    destruct (step e w) as [w1|] eqn:Hstep; [|discriminate].
    apply (IH w1 w' Hrun). apply (step_exclusive e w w1 Htimely Hstep Hw).
Qed.

End Exclusion.

(** X2: as long as every [ended] event is dispatched while its node is
    the active one, in every state reached from the initial one at most
    one clip sounds, and [isProcessing] is true exactly when one does. *)
Theorem timely_completions_keep_exclusion
  (trace : list Player.Event) (w : Player.World) :
  Player.run_timely trace Player.initial = Some w ->
  (forall i j,
     In i (Player.sounding w) -> In j (Player.sounding w) -> i = j) /\
  (Player.isProcessing w = true <-> Player.sounding w <> []).
Proof.
  intros Hrun.
  assert (Hw : Player.exclusive w).
  { apply (run_timely_exclusive trace Player.initial w Hrun).
    split.
    - intros i. split; [intros []|discriminate].
    - split; [discriminate|intros H; exfalso; apply H; reflexivity]. }
  destruct Hw as [Hone Hgate]. split.
  - intros i j Hi Hj. apply Hone in Hi, Hj. congruence.
  - rewrite Hgate. split.
    + intros Hsome Hnil.
      destruct (Player.currentlyPlayingAudioBuffer w) as [n|] eqn:Hn;
        [|congruence].
      pose proof (proj2 (Hone n) eq_refl) as Hin.
      rewrite Hnil in Hin. exact Hin.
    + intros Hsounding Hnone.
      destruct (Player.sounding w) as [|i rest] eqn:Hs; [congruence|].
      pose proof (proj1 (Hone i) (or_introl eq_refl)) as Hi. congruence.
Qed.

(** A trace with only timely completions, and one whose [ended] event
    comes after the next clip has started, which is not timely. *)
Example timely_trace :
  exists w,
    Player.run_timely
      [Player.InitPlayer; Player.AddToQueue Examples.A;
       Player.AddToQueue Examples.B; Player.AddToQueue Examples.C;
       Player.Ended 0; Player.ClearQueue; Player.AddToQueue Examples.A]
      Player.initial = Some w /\
    Player.played w = ["A"; "B"; "A"] /\
    Player.sounding w = [2%nat] /\
    Player.isProcessing w = true.
Proof.
  eexists. split; [vm_compute; reflexivity|].
  repeat split; vm_compute; reflexivity.
Qed.

Example stale_trace_not_timely :
  Player.run_timely
    [Player.InitPlayer; Player.AddToQueue Examples.A; Player.ClearQueue;
     Player.AddToQueue Examples.B; Player.Ended 0]
    Player.initial = None.
Proof. vm_compute. reflexivity. Qed.

(* ================================================================== *)
(** * More on the sample decoder                                       *)
(* ================================================================== *)

Section DecoderEdges.

Lemma Int16Array_length_ge (k : nat) :
  forall arrayBuffer, (2 * k <= List.length arrayBuffer)%nat ->
    List.length (Decoder.Int16Array arrayBuffer k) = k.
Proof.
  induction k as [|k IH]; intros arrayBuffer Hlen.
  - destruct arrayBuffer as [|lo [|hi rest]]; reflexivity.
  - destruct arrayBuffer as [|lo [|hi rest]]; cbn in Hlen; try lia.
    cbn [Decoder.Int16Array List.length]. f_equal. apply IH. lia.
Qed.

Lemma Int16Array_trailing (k : nat) :
  forall arrayBuffer extra, (2 * k <= List.length arrayBuffer)%nat ->
    Decoder.Int16Array (arrayBuffer ++ extra) k
    = Decoder.Int16Array arrayBuffer k.
Proof.
  induction k as [|k IH]; intros arrayBuffer extra Hlen.
  - destruct arrayBuffer as [|lo [|hi rest]];
      destruct extra as [|x [|y more]]; reflexivity.
  - destruct arrayBuffer as [|lo [|hi rest]]; cbn in Hlen; try lia.
    cbn [app Decoder.Int16Array]. f_equal. apply IH. lia.
Qed.

Lemma Int16Array_In (k : nat) :
  forall arrayBuffer x, In x (Decoder.Int16Array arrayBuffer k) ->
    exists lo hi, x = Decoder.int16_le lo hi.
Proof.
  induction k as [|k IH]; intros arrayBuffer x Hin.
  - destruct arrayBuffer as [|lo [|hi rest]]; contradiction.
  - destruct arrayBuffer as [|lo [|hi rest]]; try contradiction.
    destruct Hin as [<-|Hin]; [exists lo, hi; reflexivity|].
    apply (IH rest x Hin).
Qed.

(** The frames asked of [createBuffer]. *)
Lemma decode_frames (arrayBuffer : list byte) :
  Decoder.decode arrayBuffer
  = match Nat.div (List.length arrayBuffer) 2 with
    | O => Decoder.createBuffer 1 0 16000
    | S k =>
        inl (Decoder.mkAudioBuffer 1 (S k) 16000
               (map Decoder.sample (Decoder.Int16Array arrayBuffer (S k))))
    end.
Proof.
  unfold Decoder.decode. change (1 * 2)%nat with 2%nat.
  destruct (Nat.div (List.length arrayBuffer) 2); reflexivity.
Qed.

Lemma to_N_inj (a b : byte) : Byte.to_N a = Byte.to_N b -> a = b.
Proof.
  intros H. pose proof (Byte.of_to_N a) as Ha.
  rewrite H, Byte.of_to_N in Ha. congruence.
Qed.

Lemma int16_le_inj (lo hi lo' hi' : byte) :
  Decoder.int16_le lo hi = Decoder.int16_le lo' hi' ->
  lo = lo' /\ hi = hi'.
Proof.
  unfold Decoder.int16_le.
  pose proof (Byte.to_N_bounded lo). pose proof (Byte.to_N_bounded hi).
  pose proof (Byte.to_N_bounded lo'). pose proof (Byte.to_N_bounded hi').
  intros Heq.
  assert (Byte.to_N lo = Byte.to_N lo' /\ Byte.to_N hi = Byte.to_N hi')
    as [Hlo Hhi].
  { destruct (Z.ltb_spec
      (Z.of_N (Byte.to_N lo) + 256 * Z.of_N (Byte.to_N hi)) 32768);
    destruct (Z.ltb_spec
      (Z.of_N (Byte.to_N lo') + 256 * Z.of_N (Byte.to_N hi')) 32768);
    lia. }
  split; apply to_N_inj; assumption.
Qed.

Lemma sample_inj (lo hi lo' hi' : byte) :
  Decoder.sample (Decoder.int16_le lo hi)
  = Decoder.sample (Decoder.int16_le lo' hi') ->
  Decoder.int16_le lo hi = Decoder.int16_le lo' hi'.
Proof.
  intros Heq.
  destruct (sample_int16 lo hi) as [_ Hv].
  destruct (sample_int16 lo' hi') as [_ Hv'].
  rewrite Heq, Hv' in Hv. unfold Qeq in Hv. cbn in Hv. lia.
Qed.

Lemma Int16Array_inj (k : nat) :
  forall a b,
    List.length a = (2 * k)%nat -> List.length b = (2 * k)%nat ->
    map Decoder.sample (Decoder.Int16Array a k)
    = map Decoder.sample (Decoder.Int16Array b k) ->
    a = b.
Proof.
  induction k as [|k IH]; intros a b Ha Hb Heq.
  - destruct a, b; try discriminate. reflexivity.
  - destruct a as [|lo [|hi a]]; cbn in Ha; try lia.
    destruct b as [|lo' [|hi' b]]; cbn in Hb; try lia.
    cbn [Decoder.Int16Array map] in Heq.
    injection Heq as Hhead Htail.
    apply sample_inj, int16_le_inj in Hhead. destruct Hhead as [-> ->].
    do 2 f_equal. apply IH; [lia|lia|exact Htail].
Qed.

Lemma even_half (n : nat) :
  Nat.even n = true -> n = (2 * Nat.div n 2)%nat.
Proof.
  intros He. apply Nat.even_spec in He. destruct He as [k ->].
  rewrite Nat.mul_comm, Nat.div_mul by lia. lia.
Qed.

End DecoderEdges.

(** X3: decoding succeeds exactly on buffers of two bytes or more; the
    buffer it makes is mono at 16000 Hz and has half as many frames and
    samples as there are bytes, rounded down. *)
Theorem decode_needs_two_bytes (arrayBuffer : list byte) :
  ((exists audioBuffer, Decoder.decode arrayBuffer = inl audioBuffer)
   <-> (2 <= List.length arrayBuffer)%nat) /\
  forall audioBuffer,
    Decoder.decode arrayBuffer = inl audioBuffer ->
    Decoder.numberOfChannels audioBuffer = 1%nat /\
    Decoder.sampleRate audioBuffer = 16000 /\
    Decoder.length audioBuffer = Nat.div (List.length arrayBuffer) 2 /\
    List.length (Decoder.channelData audioBuffer)
    = Nat.div (List.length arrayBuffer) 2.
Proof.
  rewrite decode_frames.
  pose proof (Nat.div_small_iff (List.length arrayBuffer) 2) as Hsmall.
  pose proof (Nat.Div0.mul_div_le (List.length arrayBuffer) 2) as Hle.
  destruct (Nat.div (List.length arrayBuffer) 2) as [|k] eqn:Hk.
  - split.
    + split; [intros [b Hb]; discriminate|].
      intros Hlen. assert (List.length arrayBuffer < 2)%nat
        by (apply Hsmall; [lia|reflexivity]). lia.
    + intros b Hb. discriminate.
  - split.
    + split; [|eexists; reflexivity].
      intros _. destruct (Nat.lt_ge_cases (List.length arrayBuffer) 2)
        as [Hlt|Hge]; [|exact Hge].
      apply Hsmall in Hlt; [discriminate|lia].
    + intros b Hb. injection Hb as <-. cbn.
      repeat split. rewrite length_map.
      apply Int16Array_length_ge. exact Hle.
Qed.

(** X4: a trailing odd byte is ignored: a buffer of even length decodes
    the same with one more byte at its end. *)
Theorem decode_ignores_trailing_byte (arrayBuffer : list byte) (b : byte) :
  Nat.even (List.length arrayBuffer) = true ->
  Decoder.decode (arrayBuffer ++ [b]) = Decoder.decode arrayBuffer.
Proof.
  intros He. apply even_half in He.
  rewrite !decode_frames, length_app. cbn [List.length].
  set (k := Nat.div (List.length arrayBuffer) 2) in *.
  replace (Nat.div (List.length arrayBuffer + 1) 2) with k
    by (apply (Nat.div_unique _ 2 k 1); lia).
  destruct k as [|k]; [reflexivity|].
  rewrite Int16Array_trailing by lia. reflexivity.
Qed.

Lemma decode_ignores_trailing_byte_witness :
  Decoder.decode Cases.odd = Decoder.decode Examples.pcm.
Proof.
  exact (decode_ignores_trailing_byte Examples.pcm x01 eq_refl).
Defined.

(** X5: every sample of a decoded buffer is a finite number, at least -1
    and below 1. *)
Theorem samples_within_unit_range
  (arrayBuffer : list byte) (audioBuffer : Decoder.AudioBuffer) :
  Decoder.decode arrayBuffer = inl audioBuffer ->
  forall s, In s (Decoder.channelData audioBuffer) ->
    Float.isFinite s = true /\
    (-1 # 1 <= Float.value s)%Q /\ (Float.value s < 1 # 1)%Q.
Proof.
  rewrite decode_frames.
  destruct (Nat.div (List.length arrayBuffer) 2) as [|k]; [discriminate|].
  intros Hdec s Hin. injection Hdec as <-. cbn in Hin.
  apply in_map_iff in Hin. destruct Hin as (x & <- & Hx).
  apply Int16Array_In in Hx. destruct Hx as (lo & hi & ->).
  destruct (sample_int16 lo hi) as [Hfin Hval].
  pose proof (int16_le_range lo hi) as Hrange.
  split; [exact Hfin|]. rewrite Hval.
  split; [unfold Qle|unfold Qlt]; cbn; lia.
Qed.

Lemma samples_within_unit_range_witness :
  Float.isFinite Float.minusOne = true /\
  (-1 # 1 <= Float.value Float.minusOne)%Q /\
  (Float.value Float.minusOne < 1 # 1)%Q.
Proof.
  apply (samples_within_unit_range Examples.pcm
           (Decoder.mkAudioBuffer 1 2 16000
              [Float.minusOne; Float.justBelowOne])).
  - vm_compute. reflexivity.
  - left. reflexivity.
Defined.

(** X6: decoding loses nothing: two buffers of even length that decode
    to the same result are the same bytes. *)
Theorem decode_is_lossless (a b : list byte) :
  Nat.even (List.length a) = true ->
  Nat.even (List.length b) = true ->
  Decoder.decode a = Decoder.decode b ->
  a = b.
Proof.
  intros Ha Hb. apply even_half in Ha, Hb.
  rewrite !decode_frames.
  destruct (Nat.div (List.length a) 2) as [|k];
    destruct (Nat.div (List.length b) 2) as [|k']; intros Heq.
  - destruct a, b; try discriminate. reflexivity.
  - discriminate.
  - discriminate.
  - injection Heq as Hk Hdata. subst k'.
    apply (Int16Array_inj (S k)); assumption.
Qed.

Lemma decode_is_lossless_witness : Examples.pcm = firstn 4 Cases.odd.
Proof.
  exact (decode_is_lossless Examples.pcm (firstn 4 Cases.odd)
           eq_refl eq_refl eq_refl).
Defined.

(* ================================================================== *)
(** * More on the session message router                               *)
(* ================================================================== *)

Section RouterEdges.

Import Router.

(** What the listener does, for every frame: calls that are neither a
    timer nor a hand-off, then the timer of the hand-off if the frame is
    an ['audio_output']. *)
Lemma on_message_shape (config : SocketConfig) (now : Z)
  (message : Frame.t) :
  exists plain,
    fst (on_message config now message)
    = plain
      ++ (if (Frame.type message =? "audio_output")%string
          then [setTimeout (onAudioMessage (mkAudioOutput message now)) 200]
          else []) /\
    (forall a, In a plain ->
       Timeline.handOff a = [] /\ forall f ms, a <> setTimeout f ms).
Proof.
  unfold on_message.
  assert (Hplain : forall acts,
    (forall a, In a acts -> a = onVAD \/ exists m, a = onMessage m) ->
    forall a, In a acts ->
      Timeline.handOff a = [] /\ forall f ms, a <> setTimeout f ms).
  { intros acts Hacts a Hin.
    destruct (Hacts a Hin) as [->|[m ->]]; split;
      try reflexivity; discriminate. }
  assert (Hvad : forall a, In a (on_vad_output config now message) ->
            a = onVAD \/ exists m, a = onMessage m).
  { unfold on_vad_output. intros a Hin.
    destruct (Frame.type message =? "vad_output")%string; [|contradiction].
    destruct (chatMode config); cbn in Hin;
      intuition (subst; eauto). }
  assert (Htexts : forall a,
            In a (on_question now message ++ on_answer now message) ->
            a = onVAD \/ exists m, a = onMessage m).
  { unfold on_question, on_answer. intros a Hin.
    destruct (Frame.question message) as [q|];
      destruct (Frame.answer message) as [b|];
      try destruct (truthy (Some q)); try destruct (truthy (Some b));
      cbn in Hin; intuition (subst; eauto). }
  destruct (Frame.type message =? "audio_output")%string.
  - exists (on_vad_output config now message
            ++ on_question now message ++ on_answer now message).
    cbn [fst]. split; [rewrite <- !app_assoc; reflexivity|].
    apply Hplain. intros a Hin. apply in_app_or in Hin.
    destruct Hin as [Hin|Hin]; [apply Hvad|apply Htexts]; exact Hin.
  - eexists. cbn [fst]. split; [symmetry; apply app_nil_r|].
    apply Hplain. intros a Hin. apply in_app_or in Hin.
    destruct Hin as [Hin|Hin]; [apply Hvad; exact Hin|].
    destruct (Frame.type message =? "text_output")%string;
      [|contradiction].
    destruct Hin as [<-|[]]. right. eexists. reflexivity.
Qed.

(** A frame arrives: the plain calls are observed at once, the hand-off
    of an audio frame waits on its timer. *)
Lemma receive_eq (config : SocketConfig) (message : Frame.t) (l : Loop) :
  exists plain,
    receive config message l
    = mkLoop (clock l)
        (timers l
         ++ (if (Frame.type message =? "audio_output")%string
             then [(clock l + 200,
                    onAudioMessage (mkAudioOutput message (clock l)))]
             else []))
        (observed l ++ map (fun a => (clock l, a)) plain) /\
    (forall a, In a plain -> Timeline.handOff a = []).
Proof.
  destruct (on_message_shape config (clock l) message)
    as (plain & Hshape & Hplain).
  exists plain. split; [|intros a Hin; apply (Hplain a Hin)].
  unfold receive. rewrite Hshape, fold_perform_app.
  rewrite (fold_perform_plain plain)
    by (intros a Hin; apply (Hplain a Hin)).
  destruct (Frame.type message =? "audio_output")%string; cbn.
  - reflexivity.
  - rewrite app_nil_r. reflexivity.
Qed.

Lemma flat_handOff_plain (now : Z) (plain : list Action) :
  (forall a, In a plain -> Timeline.handOff a = []) ->
  flat_map (fun p : Z * Action => Timeline.handOff (snd p))
    (map (fun a => (now, a)) plain) = [].
Proof.
  induction plain as [|a plain IH]; intros Hplain; [reflexivity|].
  cbn. rewrite (Hplain a) by (left; reflexivity).
  apply IH. intros b Hb. apply Hplain. right. exact Hb.
Qed.

(** Timers in the order of their due times fire as a prefix. *)
Lemma due_prefix (now : Z) (ts : list (Z * Action)) :
  StronglySorted (fun a b => fst a <= fst b) ts ->
  filter (due now) ts ++ filter (fun t => negb (due now t)) ts = ts.
Proof.
  induction 1 as [|x ts Hsorted IH Hx]; [reflexivity|].
  cbn [filter]. destruct (due now x) eqn:Hdue; cbn [negb app].
  - rewrite IH. reflexivity.
  - assert (Hnone : forall t, In t ts -> due now t = false).
    { intros t Hin. rewrite Forall_forall in Hx. specialize (Hx t Hin).
      unfold due in *. apply Z.leb_gt in Hdue. apply Z.leb_gt. lia. }
    assert (Hall : filter (due now) ts = []
                   /\ filter (fun t => negb (due now t)) ts = ts).
    { clear IH Hsorted Hx. induction ts as [|t ts IHts]; [split; reflexivity|].
      cbn [filter]. rewrite (Hnone t) by (left; reflexivity). cbn [negb].
      destruct IHts as [H1 H2];
        [intros u Hu; apply Hnone; right; exact Hu|].
      rewrite H1, H2. split; reflexivity. }
    destruct Hall as [-> ->]. reflexivity.
Qed.

Lemma StronglySorted_filter {A} (R : A -> A -> Prop) (f : A -> bool)
  (l : list A) :
  StronglySorted R l -> StronglySorted R (filter f l).
Proof.
  induction 1 as [|x l Hsorted IH Hx]; [constructor|].
  cbn [filter]. destruct (f x); [|exact IH].
  constructor; [exact IH|].
  rewrite Forall_forall in *. intros y Hy.
  apply filter_In in Hy. apply Hx, Hy.
Qed.

Lemma StronglySorted_snoc {A} (R : A -> A -> Prop) (l : list A) (x : A) :
  StronglySorted R l -> (forall y, In y l -> R y x) ->
  StronglySorted R (l ++ [x]).
Proof.
  induction 1 as [|y l Hsorted IH Hy]; intros Hle; cbn.
  - repeat constructor.
  - constructor.
    + apply IH. intros z Hz. apply Hle. right. exact Hz.
    + rewrite Forall_forall in *. intros z Hz. apply in_app_or in Hz.
      destruct Hz as [Hz|[<-|[]]]; [apply Hy, Hz|].
      apply Hle. left. reflexivity.
Qed.

(** The state the timers keep, and what one tick adds. *)
Lemma step_timeline (config : SocketConfig) (t : Timeline.Tick) (l : Loop) :
  let good l :=
    Timeline.punctual l /\
    StronglySorted (fun a b : Z * Action => fst a <= fst b) (timers l) /\
    (forall d a, In (d, a) (timers l) -> d <= clock l + 200) in
  good l ->
  good (Timeline.step config l t) /\
  Timeline.handedOff (Timeline.step config l t)
    ++ Timeline.awaiting (Timeline.step config l t)
  = (Timeline.handedOff l ++ Timeline.awaiting l)
    ++ Timeline.arrivals (clock l) [t] /\
  forall rest,
    Timeline.arrivals (clock l) (t :: rest)
    = Timeline.arrivals (clock l) [t]
      ++ Timeline.arrivals (clock (Timeline.step config l t)) rest.
Proof.
  intros good [[Htimers Hobserved] [Hsorted Hbound]].
  destruct t as [message|dt]; cbn [Timeline.step Timeline.arrivals].
  - destruct (receive_eq config message l) as (plain & -> & Hplain).
    unfold Timeline.handedOff, Timeline.awaiting.
    cbn [clock timers observed].
    rewrite !flat_map_app.
    rewrite (flat_handOff_plain (clock l) plain Hplain).
    rewrite ?app_nil_r.
    split; [|split].
    + unfold good, Timeline.punctual. cbn [clock timers observed].
      split; [split|split].
      * intros d a Hin. apply in_app_or in Hin.
        destruct Hin as [Hin|Hin]; [apply Htimers; exact Hin|].
        destruct (Frame.type message =? "audio_output")%string;
          [|contradiction].
        destruct Hin as [Heq|[]]. injection Heq as <- <-.
        split; [lia|]. eexists. split; reflexivity.
      * intros t m Hin. apply in_app_or in Hin.
        destruct Hin as [Hin|Hin]; [apply Hobserved; exact Hin|].
        apply in_map_iff in Hin. destruct Hin as (a & Heq & Ha).
        injection Heq as _ ->. apply Hplain in Ha. discriminate.
      * destruct (Frame.type message =? "audio_output")%string;
          [|rewrite app_nil_r; exact Hsorted].
        apply StronglySorted_snoc; [exact Hsorted|].
        intros [d a] Hin. cbn. apply (Hbound d a Hin).
      * intros d a Hin. apply in_app_or in Hin.
        destruct Hin as [Hin|Hin]; [apply (Hbound d a Hin)|].
        destruct (Frame.type message =? "audio_output")%string;
          [|contradiction].
        destruct Hin as [Heq|[]]. injection Heq as <- _. lia.
    + rewrite <- !app_assoc. do 2 f_equal.
      destruct (Frame.type message =? "audio_output")%string; reflexivity.
    + intros rest. reflexivity.
  - unfold advance. unfold Timeline.handedOff, Timeline.awaiting.
    cbn [clock timers observed].
    pose proof (N2Z.is_nonneg dt) as Hdt.
    split; [|split].
    + unfold good, Timeline.punctual. cbn [clock timers observed].
      split; [split|split].
      * intros d a Hin. apply filter_In in Hin. destruct Hin as [Hin Hdue].
        split; [|apply (Htimers d a Hin)].
        unfold due in Hdue. cbn in Hdue.
        apply negb_true_iff, Z.leb_gt in Hdue. exact Hdue.
      * intros t m Hin. apply in_app_or in Hin.
        destruct Hin as [Hin|Hin].
        -- pose proof (Hobserved t m Hin).
           exact (Hobserved t m Hin).
        -- apply in_map_iff in Hin. destruct Hin as ([d a] & Heq & Hin).
           cbn in Heq. injection Heq as <- ->.
           apply filter_In in Hin. destruct Hin as [Hin Hdue].
           destruct (Htimers d _ Hin) as [_ (m' & Hm & ->)].
           injection Hm as <-. unfold due in Hdue. cbn in Hdue.
           apply Z.leb_le in Hdue. exact Hdue.
      * apply StronglySorted_filter. exact Hsorted.
      * intros d a Hin. apply filter_In in Hin.
        pose proof (Hbound d a (proj1 Hin)). lia.
    + rewrite app_nil_r, flat_map_app, <- app_assoc. f_equal.
      rewrite <- (due_prefix (clock l + Z.of_N dt) (timers l) Hsorted)
        at 3.
      rewrite flat_map_app. f_equal.
      rewrite flat_map_concat_map, map_map, <- flat_map_concat_map.
      reflexivity.
    + intros rest. reflexivity.
Qed.

Lemma play_timeline (config : SocketConfig) (ticks : list Timeline.Tick) :
  forall l,
    Timeline.punctual l ->
    StronglySorted (fun a b : Z * Action => fst a <= fst b) (timers l) ->
    (forall d a, In (d, a) (timers l) -> d <= clock l + 200) ->
    Timeline.punctual (Timeline.play config ticks l) /\
    Timeline.handedOff (Timeline.play config ticks l)
      ++ Timeline.awaiting (Timeline.play config ticks l)
    = (Timeline.handedOff l ++ Timeline.awaiting l)
      ++ Timeline.arrivals (clock l) ticks.
Proof.
  induction ticks as [|t ticks IH]; intros l Hp Hs Hb.
  - cbn. rewrite app_nil_r. split; [exact Hp|reflexivity].
  - destruct (step_timeline config t l (conj Hp (conj Hs Hb)))
      as ((Hp' & Hs' & Hb') & Hline & Harrivals).
    destruct (IH (Timeline.step config l t) Hp' Hs' Hb') as [Hfinal Heq].
    split; [exact Hfinal|].
    change (Timeline.play config (t :: ticks) l)
      with (Timeline.play config ticks (Timeline.step config l t)).
    rewrite Heq, Hline, (Harrivals ticks), <- !app_assoc. reflexivity.
Qed.

End RouterEdges.

(** X7: for every text_output frame the router emits, in both modes, one
    post-assistant message with the frame's answer and identifier and
    end = true, and sets no timer: no audio hand-off follows. *)
Theorem text_output_post_message
  (config : Router.SocketConfig) (now : Z) (message : Frame.t) :
  Frame.type message = "text_output" ->
  Router.on_message config now message
  = ([Router.onMessage
        (Msg.mk "post_assistant_message" (Some (Frame.id message)) false
           "assistant" (Frame.answer message) now (Some true))],
     normal tt) /\
  forall l,
    Router.timers (Router.receive config message l) = Router.timers l.
Proof.
  intros Htext.
  assert (Hact : Router.on_message config now message
    = ([Router.onMessage
          (Msg.mk "post_assistant_message" (Some (Frame.id message)) false
             "assistant" (Frame.answer message) now (Some true))],
       normal tt)).
  { unfold Router.on_message.
    rewrite (not_vad config now message) by (rewrite Htext; discriminate).
    rewrite Htext. reflexivity. }
  split; [exact Hact|].
  intros l. destruct (receive_eq config message l) as (plain & -> & _).
  rewrite Htext. cbn. apply app_nil_r.
Qed.

Lemma text_output_post_message_witness :
  Router.on_message Examples.chat 9 Cases.text
  = ([Router.onMessage
        (Msg.mk "post_assistant_message" (Some "reply-1") false
           "assistant" (Some "hello") 9 (Some true))],
     normal tt).
Proof.
  exact (proj1 (text_output_post_message Examples.chat 9 Cases.text
                  eq_refl)).
Defined.

(** X8: the configuration reaches the listener through the chat mode
    only, and the chat mode through vad_output frames only: any other
    frame is handled alike in both modes. *)
Theorem only_vad_output_depends_on_mode
  (config config' : Router.SocketConfig) (now : Z) (message : Frame.t) :
  Frame.type message <> "vad_output" \/
  Router.chatMode config = Router.chatMode config' ->
  Router.on_message config now message
  = Router.on_message config' now message.
Proof.
  intros [Hvad|Hmode]; unfold Router.on_message.
  - rewrite !(not_vad _ now message Hvad). reflexivity.
  - unfold Router.on_vad_output. rewrite Hmode. reflexivity.
Qed.

Lemma only_vad_output_depends_on_mode_witness :
  Router.on_message Examples.chat 0 Examples.hiHello
  = Router.on_message Examples.turnBased 0 Examples.hiHello.
Proof.
  apply (only_vad_output_depends_on_mode Examples.chat Examples.turnBased
           0 Examples.hiHello).
  left. discriminate.
Defined.

(** X9: whatever frames arrive and however time passes, the clips handed
    to onAudioMessage followed by those still on a timer are the audio
    frames received, in the order of arrival, each once; no timer left
    is due, and every hand-off came 200 ms or more after its frame. *)
Theorem hand_offs_in_arrival_order
  (config : Router.SocketConfig) (ticks : list Timeline.Tick) (now : Z) :
  let l := Timeline.play config ticks (Router.mkLoop now [] []) in
  Timeline.handedOff l ++ Timeline.awaiting l
  = Timeline.arrivals now ticks /\
  Timeline.punctual l.
Proof.
  destruct (play_timeline config ticks (Router.mkLoop now [] []))
    as [Hp Heq].
  - split; intros ? ? [].
  - constructor.
  - intros ? ? [].
  - split; [exact Heq|exact Hp].
Qed.

(** Two audio frames 10 ms apart, 205 ms after the first: its clip has
    been handed off, the clip of the second waits. *)
Example two_frames_ten_ms_apart :
  let l := Timeline.play Examples.chat
             [Timeline.Arrive Examples.hiHello; Timeline.Wait 10;
              Timeline.Arrive Examples.emptyQuestion; Timeline.Wait 195]
             (Router.mkLoop 0 [] []) in
  Timeline.handedOff l = [mkAudioOutput Examples.hiHello 0] /\
  Timeline.awaiting l = [mkAudioOutput Examples.emptyQuestion 10].
Proof. split; reflexivity. Qed.

Section SessionFacts.

Import Router.

Lemma apply_client (o : Session.Op) (s : State) :
  client (state (Session.apply o s)) = None
  <-> client s = None /\ Session.connects o = false.
Proof.
  destruct s as [[c|] r m], o; cbn; unfold sendUserInput;
    try destruct (text =? "new topic")%string; cbn;
    intuition (try discriminate; try congruence).
Qed.

Lemma apply_transmitted (o : Session.Op) (s : State) :
  Session.connects o = false ->
  transmitted (state (Session.apply o s))
  = match client s with
    | Some c => sent c ++ Session.command o
    | None => []
    end.
Proof.
  destruct s as [[c|] r m], o; cbn; try discriminate; intros _;
    unfold sendUserInput;
    try destruct (text =? "new topic")%string; cbn;
    rewrite ?app_nil_r; reflexivity.
Qed.

End SessionFacts.

(** X10: no call and no socket event clears the client reference: once
    connect has run there is a client for good, disconnect and the close
    event included; and there is none before the first connect. *)
Theorem client_is_never_cleared
  (ops : list Session.Op) (s : Router.State) :
  Router.client (Session.run ops s) = None
  <-> Router.client s = None /\ existsb Session.connects ops = false.
Proof.
  revert s. induction ops as [|o ops IH]; intros s.
  - cbn. tauto.
  - change (Session.run (o :: ops) s)
      with (Session.run ops (Router.state (Session.apply o s))).
    rewrite IH, apply_client. cbn [existsb].
    rewrite orb_false_iff. tauto.
Qed.

(** X11: between two connects, every send call hands its one command to
    the client, in call order, and nothing else does; disconnect does not
    detach the client, so later calls still reach it; before connect
    nothing is handed to any transport. *)
Theorem commands_reach_client_in_call_order
  (ops : list Session.Op) (s : Router.State) :
  existsb Session.connects ops = false ->
  Router.transmitted (Session.run ops s)
  = match Router.client s with
    | Some c => Router.sent c ++ flat_map Session.command ops
    | None => []
    end.
Proof.
  revert s. induction ops as [|o ops IH]; intros s Hnone.
  - cbn. unfold Router.transmitted.
    destruct (Router.client s); [rewrite app_nil_r|]; reflexivity.
  - cbn [existsb] in Hnone. apply orb_false_iff in Hnone.
    destruct Hnone as [Ho Hops].
    change (Session.run (o :: ops) s)
      with (Session.run ops (Router.state (Session.apply o s))).
    rewrite (IH _ Hops).
    pose proof (apply_transmitted o s Ho) as Hsent.
    pose proof (apply_client o s) as Hclient.
    unfold Router.transmitted in Hsent.
    destruct (Router.client (Router.state (Session.apply o s))) as [c'|];
      destruct (Router.client s) as [c|].
    + rewrite Hsent. cbn [flat_map]. rewrite app_assoc. reflexivity.
    + exfalso. assert (Some c' = None) by (apply Hclient; auto).
      discriminate.
    + exfalso. destruct (proj1 Hclient eq_refl) as [Hc _]. discriminate.
    + reflexivity.
Qed.

Lemma commands_reach_client_in_call_order_witness :
  Router.transmitted
    (Session.run
       [Session.Open; Session.SendUserInput "hi" 5; Session.Disconnect;
        Session.Close; Session.Pause]
       Examples.connected)
  = [Router.UserInput "hi"; Router.PauseAssistant].
Proof.
  exact (commands_reach_client_in_call_order
           [Session.Open; Session.SendUserInput "hi" 5; Session.Disconnect;
            Session.Close; Session.Pause]
           Examples.connected eq_refl).
Defined.

(* ================================================================== *)
(** * More on the sound player                                         *)
(* ================================================================== *)

Section PlayerStates.

Import Player.

(** [stopAll], with the monad unfolded. *)
Lemma stopAll_state (w : World) :
  stopAll w
  = (normal tt,
     mkWorld false generateEmptyFft (audioContext w) None false [] false
       None (frequencyDataIntervalId w)
       match currentlyPlayingAudioBuffer w with
       | Some n =>
           alter (fun s => mkNode (node_buffer s) false (playing s)
                             (ended_pending s))
             n (nodes w)
       | None => nodes w
       end
       match frequencyDataIntervalId w with
       | Some (S i) =>
           filter (fun t => negb (Nat.eqb (fst t) (S i))) (intervals w)
       | _ => intervals w
       end
       (nextIntervalId w) (nextContext w)
       match audioContext w with
       | Some _ => S (closing w)
       | None => closing w
       end
       (calls w)).
Proof.
  destruct w as [playing0 fft0 context analyser initialized queue processing
                   current interval nodes0 intervals0 nextI nextC closing0
                   calls0].
  unfold stopAll, clearSampling, clearInterval, disconnect, update_node,
    bind, read, modify, ret.
  destruct interval as [[|i]|], current, analyser, context; reflexivity.
Qed.

(** The [ended] handler up to its call of [playNextClip]. *)
Lemma ended_state (n : nat) (w : World) :
  handler (Ended n) w w
  = playNextClip
      (mkWorld false generateEmptyFft (audioContext w) (analyserNode w)
         (isInitialized w) (clipQueue w) false None
         (frequencyDataIntervalId w)
         (alter (fun s => mkNode (node_buffer s) false (playing s)
                            (ended_pending s))
            n
            (alter (fun s => mkNode (node_buffer s) (connected s) false false)
               n (nodes w)))
         match frequencyDataIntervalId w with
         | Some (S i) =>
             filter (fun t => negb (Nat.eqb (fst t) (S i))) (intervals w)
         | _ => intervals w
         end
         (nextIntervalId w) (nextContext w) (closing w) (calls w)).
Proof.
  destruct w as [playing0 fft0 context analyser initialized queue processing
                   current interval nodes0 intervals0 nextI nextC closing0
                   calls0].
  unfold handler, onended, clearSampling, clearInterval, disconnect,
    update_node, bind, read, modify, ret.
  destruct interval as [[|i]|]; reflexivity.
Qed.

Lemma initPlayer_state (w : World) :
  initPlayer w
  = (normal tt,
     set_isInitialized true
       (set_analyserNode (Some (nextContext w))
          (set_audioContext (Some (nextContext w))
             (set_nextContext (S (nextContext w)) w)))).
Proof. destruct w. reflexivity. Qed.

Lemma closeSettled_state (fulfilled : bool) (w : World) :
  closeSettled fulfilled w
  = (normal tt,
     if fulfilled
     then set_audioContext None (set_closing (Nat.pred (closing w)) w)
     else set_closing (Nat.pred (closing w)) w).
Proof. destruct w, fulfilled; reflexivity. Qed.

Lemma decode_some (arrayBuffer : list byte) :
  (2 <= List.length arrayBuffer)%nat ->
  exists audioBuffer, Decoder.decode arrayBuffer = inl audioBuffer.
Proof.
  intros Hlen. rewrite decode_frames.
  pose proof (Nat.div_small_iff (List.length arrayBuffer) 2) as Hsmall.
  destruct (Nat.div (List.length arrayBuffer) 2) as [|k];
    [|eexists; reflexivity].
  assert (List.length arrayBuffer < 2)%nat by (apply Hsmall; [lia|reflexivity]).
  lia.
Qed.

(** A clip enqueued while another is processing only joins the queue. *)
Lemma addToQueue_queued (message : AudioOutput)
  (audioBuffer : Decoder.AudioBuffer) (w : World) :
  notInitialized w = false ->
  analyserNode w <> None ->
  isProcessing w = true ->
  Decoder.decode (Frame.data (frame message)) = inl audioBuffer ->
  addToQueue message w
  = (normal tt,
     set_clipQueue
       (clipQueue w ++ [mkClip (Frame.id (frame message)) audioBuffer]) w).
Proof.
  intros Hinit Hanalyser Hgate Hdec.
  rewrite (addToQueue_decoded message audioBuffer w Hinit Hdec). cbv zeta.
  match goal with |- context [if ?c then _ else _] => destruct c end;
    [|reflexivity].
  rewrite playNextClip_eq.
  unfold notInitialized in Hinit.
  destruct w as [playing0 fft0 [c|] [a|] [|] queue processing
                   current interval nodes0 intervals0 nextI nextC closing0
                   calls0]; cbn in *; try discriminate; try congruence.
  subst processing. destruct queue; reflexivity.
Qed.

(** A clip enqueued on a player at rest starts at once. *)
Lemma addToQueue_started (message : AudioOutput)
  (audioBuffer : Decoder.AudioBuffer) (w : World) :
  notInitialized w = false ->
  analyserNode w <> None ->
  clipQueue w = [] ->
  isProcessing w = false ->
  Decoder.decode (Frame.data (frame message)) = inl audioBuffer ->
  addToQueue message w
  = (normal tt,
     let fresh := List.length (nodes w) in
     set_calls (calls w ++ [onPlayAudio (Frame.id (frame message))])
       (set_nodes (nodes w ++ [mkNode audioBuffer true true true])
          (set_frequencyDataIntervalId (Some (nextIntervalId w))
             (set_nextIntervalId (S (nextIntervalId w))
                (set_intervals (intervals w ++ [(nextIntervalId w, fresh)])
                   (set_currentlyPlayingAudioBuffer (Some fresh)
                      (set_isPlaying true (set_isProcessing true w)))))))).
Proof.
  intros Hinit Hanalyser Hqueue Hgate Hdec.
  rewrite (addToQueue_decoded message audioBuffer w Hinit Hdec). cbv zeta.
  rewrite playNextClip_eq.
  unfold notInitialized in Hinit.
  destruct w as [playing0 fft0 [c|] [a|] [|] queue processing
                   current interval nodes0 intervals0 nextI nextC closing0
                   calls0]; cbn in *; try discriminate; try congruence.
  subst queue processing. cbn -[alter].
  do 2 f_equal.
  assert (Halter : forall (l : list AudioBufferSourceNode) b,
    alter (fun s => mkNode (node_buffer s) (connected s) true true)
      (List.length l) (l ++ [mkNode b true false false])
    = l ++ [mkNode b true true true]).
  { induction l as [|x l IH]; intros b; cbn; [reflexivity|].
    rewrite IH. reflexivity. }
  rewrite Halter. reflexivity.
Qed.

End PlayerStates.

Section Draining.

Import Player.

Lemma run_timely_app (t1 t2 : list Event) :
  forall w,
    run_timely (t1 ++ t2) w
    = match run_timely t1 w with
      | Some w1 => run_timely t2 w1
      | None => None
      end.
Proof.
  induction t1 as [|e t1 IH]; intros w; [reflexivity|].
  cbn [app run_timely]. destruct (timely e w); [|reflexivity].
  destruct (step e w) as [w1|]; [apply IH|reflexivity].
Qed.

Lemma run_timely_run (trace : list Event) :
  forall w w', run_timely trace w = Some w' -> run trace w = Some w'.
Proof.
  induction trace as [|e trace IH]; intros w w' Hrun; [exact Hrun|].
  cbn [run_timely] in Hrun. cbn [run].
  destruct (timely e w); [|discriminate].
  destruct (step e w) as [w1|]; [apply IH; exact Hrun|discriminate].
Qed.

Lemma onAir_queue (w : World) (current : nat) (queue : list Clip) :
  Playback.onAir w current ->
  Playback.onAir (set_clipQueue queue w) current.
Proof. destruct w. exact (fun H => H). Qed.

(** The active clip ends and the head of the queue takes over. *)
Lemma ended_next (w : World) (current : nat) (c : Clip) (q : list Clip) :
  Playback.onAir w current ->
  clipQueue w = c :: q ->
  exists w',
    timely (Ended current) w = true /\
    step (Ended current) w = Some w' /\
    Playback.onAir w' (S current) /\
    clipQueue w' = q /\
    calls w' = calls w ++ [onPlayAudio (id c)].
Proof.
  intros (Hinit & Hanalyser & Hgate & Hcurrent & Hlen & s & Hs & Hpending)
    Hqueue.
  unfold step, enabled, node. rewrite Hs, Hpending.
  rewrite ended_state, playNextClip_eq.
  unfold notInitialized in Hinit.
  destruct w as [playing0 fft0 [ctx|] [a|] [|] queue processing
                   cur interval nodes0 intervals0 nextI nextC closing0
                   calls0]; cbn in *; try discriminate; try congruence.
  subst queue cur. cbn -[alter nth_error].
  eexists. split; [apply Nat.eqb_refl|]. split; [reflexivity|].
  cbn -[alter nth_error]. rewrite !alter_length, Hlen.
  split; [|split; reflexivity].
  unfold Playback.onAir, notInitialized. cbn -[alter nth_error].
  repeat (split; [reflexivity || discriminate|]).
  split.
  - rewrite alter_length, length_app, !alter_length, Hlen. cbn. lia.
  - exists (mkNode (buffer c) true true true). split; [|reflexivity].
    rewrite nth_error_alter, Nat.eqb_refl.
    rewrite nth_error_app2 by (rewrite !alter_length; lia).
    rewrite !alter_length, Hlen, Nat.sub_diag. reflexivity.
Qed.

(** The last clip ends on an empty queue: the player is at rest. *)
Lemma ended_last (w : World) (current : nat) :
  Playback.onAir w current ->
  clipQueue w = [] ->
  exists w',
    timely (Ended current) w = true /\
    step (Ended current) w = Some w' /\
    calls w' = calls w /\
    clipQueue w' = [] /\
    isProcessing w' = false /\
    currentlyPlayingAudioBuffer w' = None.
Proof.
  intros (Hinit & Hanalyser & Hgate & Hcurrent & Hlen & s & Hs & Hpending)
    Hqueue.
  unfold step, enabled, node. rewrite Hs, Hpending.
  rewrite ended_state, playNextClip_eq.
  unfold notInitialized in Hinit.
  destruct w as [playing0 fft0 [ctx|] [a|] [|] queue processing
                   cur interval nodes0 intervals0 nextI nextC closing0
                   calls0]; cbn in *; try discriminate; try congruence.
  subst queue cur. cbn -[alter].
  eexists. split; [apply Nat.eqb_refl|]. split; [reflexivity|].
  repeat split.
Qed.

(** The clips waiting are played one after the other, each started by
    the end of the one before. *)
Lemma drain (q : list Clip) :
  forall w current,
    Playback.onAir w current ->
    clipQueue w = q ->
    exists w',
      run_timely (map Ended (seq current (S (List.length q)))) w = Some w' /\
      calls w' = calls w ++ map (fun c => onPlayAudio (id c)) q /\
      clipQueue w' = [] /\
      isProcessing w' = false /\
      currentlyPlayingAudioBuffer w' = None.
Proof.
  induction q as [|c q IH]; intros w current Hair Hqueue.
  - destruct (ended_last w current Hair Hqueue)
      as (w' & Htimely & Hstep & Hcalls & Hq & Hgate & Hnone).
    exists w'. cbn [List.length seq map run_timely].
    rewrite Htimely, Hstep, app_nil_r. auto.
  - destruct (ended_next w current c q Hair Hqueue)
      as (w1 & Htimely & Hstep & Hair1 & Hq1 & Hcalls1).
    destruct (IH w1 (S current) Hair1 Hq1)
      as (w' & Hrun & Hcalls & Hq & Hgate & Hnone).
    exists w'. cbn [List.length]. rewrite <- cons_seq.
    cbn [map run_timely]. rewrite Htimely, Hstep, Hrun.
    split; [reflexivity|]. split; [|auto].
    rewrite Hcalls, Hcalls1, <- app_assoc. reflexivity.
Qed.

(** Clips enqueued while one is on air join the queue in order. *)
Lemma enqueue_waiting (messages : list AudioOutput) :
  forall w current,
    Playback.onAir w current ->
    Forall (fun m => (2 <= List.length (Frame.data (frame m)))%nat)
      messages ->
    exists clips,
      run_timely (map AddToQueue messages) w
      = Some (set_clipQueue (clipQueue w ++ clips) w) /\
      map id clips = map (fun m => Frame.id (frame m)) messages.
Proof.
  induction messages as [|m messages IH]; intros w current Hair Hall.
  - exists []. cbn. rewrite app_nil_r. destruct w. auto.
  - inversion Hall as [|? ? Hm Hrest]; subst.
    destruct (decode_some _ Hm) as (audioBuffer & Hdec).
    pose proof Hair as (Hinit & Hanalyser & Hgate & _).
    pose proof (addToQueue_queued m audioBuffer w Hinit Hanalyser Hgate Hdec)
      as Hadd.
    set (w1 := set_clipQueue
                 (clipQueue w ++ [mkClip (Frame.id (frame m)) audioBuffer])
                 w) in *.
    destruct (IH w1 current (onAir_queue w current _ Hair) Hrest)
      as (clips & Hrun & Hids).
    exists (mkClip (Frame.id (frame m)) audioBuffer :: clips).
    cbn [map run_timely timely]. unfold step. cbn [enabled handler].
    rewrite Hadd. cbn [snd]. rewrite Hrun.
    split; [|cbn; rewrite Hids; reflexivity].
    f_equal. unfold w1. destruct w. cbn. rewrite <- app_assoc. reflexivity.
Qed.

End Draining.

(** X12: a clip that decodes, enqueued on an initialised player while
    another clip is processing, joins the end of the queue and nothing
    else changes: no node is created, no callback is called. *)
Theorem addToQueue_waits_while_processing (message : AudioOutput)
  (audioBuffer : Decoder.AudioBuffer) (w : Player.World) :
  Player.notInitialized w = false ->
  Player.analyserNode w <> None ->
  Player.isProcessing w = true ->
  Decoder.decode (Frame.data (frame message)) = inl audioBuffer ->
  Player.addToQueue message w
  = (normal tt,
     Player.set_clipQueue
       (Player.clipQueue w
          ++ [Player.mkClip (Frame.id (frame message)) audioBuffer]) w).
Proof. apply addToQueue_queued. Qed.

(** X13: on an initialised player at rest, clips of two bytes or more
    that are enqueued and then left to end one by one are announced
    through onPlayAudio in the order of enqueueing, with no error
    reported; at the end the queue is empty, nothing is processing and
    nothing sounds. *)
Theorem queue_drains_in_order
  (messages : list AudioOutput) (w : Player.World) :
  Player.exclusive w ->
  Player.notInitialized w = false ->
  Player.analyserNode w <> None ->
  Player.clipQueue w = [] ->
  Player.isProcessing w = false ->
  Forall (fun m => (2 <= List.length (Frame.data (frame m)))%nat) messages ->
  exists w',
    Player.run
      (map Player.AddToQueue messages
         ++ map Player.Ended
              (seq (List.length (Player.nodes w)) (List.length messages)))
      w = Some w' /\
    Player.calls w'
    = Player.calls w
      ++ map (fun m => Player.onPlayAudio (Frame.id (frame m))) messages /\
    Player.clipQueue w' = [] /\
    Player.isProcessing w' = false /\
    Player.sounding w' = [].
Proof.
  intros Hexclusive Hinit Hanalyser Hqueue Hgate Hall.
  assert (Hsilent : forall w0, Player.exclusive w0 ->
            Player.isProcessing w0 = false -> Player.sounding w0 = []).
  { intros w0 [Hone Hiff] Hg.
    destruct (Player.sounding w0) as [|i rest] eqn:Hs; [reflexivity|].
    exfalso. pose proof (proj1 (Hone i) (or_introl eq_refl)) as Hi.
    assert (Player.isProcessing w0 = true)
      by (apply Hiff; congruence).
    congruence. }
  assert (Htimely : exists w',
    Player.run_timely
      (map Player.AddToQueue messages
         ++ map Player.Ended
              (seq (List.length (Player.nodes w)) (List.length messages)))
      w = Some w' /\
    Player.calls w'
    = Player.calls w
      ++ map (fun m => Player.onPlayAudio (Frame.id (frame m))) messages /\
    Player.clipQueue w' = [] /\
    Player.isProcessing w' = false).
  { destruct messages as [|m messages].
    - exists w. cbn. rewrite app_nil_r. auto.
    - inversion Hall as [|? ? Hm Hrest]; subst.
      destruct (decode_some _ Hm) as (audioBuffer & Hdec).
      pose proof (addToQueue_started m audioBuffer w Hinit Hanalyser Hqueue
                    Hgate Hdec) as Hadd.
      cbv zeta in Hadd.
      match type of Hadd with _ = (_, ?w1') => set (w1 := w1') in * end.
      assert (Hair : Playback.onAir w1 (List.length (Player.nodes w))).
      { unfold Player.notInitialized in Hinit.
        destruct w as [playing0 fft0 [ctx|] [a|] [|] queue processing
                         cur interval nodes0 intervals0 nextI nextC closing0
                         calls0]; cbn in *; try discriminate; try congruence.
        unfold Playback.onAir, Player.notInitialized, w1. cbn.
        repeat (split; [reflexivity || discriminate|]).
        split; [rewrite length_app; cbn; lia|].
        eexists. rewrite nth_error_app2, Nat.sub_diag by lia.
        split; reflexivity. }
      destruct (enqueue_waiting messages w1 _ Hair Hrest)
        as (clips & Hrun & Hids).
      assert (Hq1 : Player.clipQueue w1 = []).
      { unfold w1. destruct w. cbn in *. exact Hqueue. }
      rewrite Hq1 in Hrun. cbn [app] in Hrun.
      destruct (drain clips (Player.set_clipQueue clips w1)
                  (List.length (Player.nodes w))
                  (onAir_queue w1 _ clips Hair))
        as (w' & Hdrain & Hcalls & Hq & Hg & _).
      { destruct w1. reflexivity. }
      exists w'.
      cbn [map app Player.run_timely Player.timely List.length].
      unfold Player.step. cbn [Player.enabled Player.handler].
      rewrite Hadd. cbn [snd].
      rewrite run_timely_app, Hrun.
      replace (List.length messages) with (List.length clips)
        by (rewrite <- (length_map Player.id), Hids, length_map;
            reflexivity).
      rewrite Hdrain.
      split; [reflexivity|]. split; [|auto].
      rewrite Hcalls.
      replace (Player.calls (Player.set_clipQueue clips w1))
        with (Player.calls w
                ++ [Player.onPlayAudio (Frame.id (frame m))])
        by (unfold w1; destruct w; reflexivity).
      rewrite <- app_assoc. cbn [map app]. do 2 f_equal.
      rewrite <- (map_map Player.id Player.onPlayAudio), Hids, map_map.
      reflexivity. }
  destruct Htimely as (w' & Hrun & Hcalls & Hq & Hg).
  exists w'. split; [apply run_timely_run; exact Hrun|].
  split; [exact Hcalls|]. split; [exact Hq|]. split; [exact Hg|].
  apply Hsilent; [|exact Hg].
  apply (run_timely_exclusive _ w w' Hrun Hexclusive).
Qed.

Lemma addToQueue_waits_while_processing_witness :
  exists w,
    Examples.busy = Some w /\
    map Player.id
      (Player.clipQueue (snd (Player.addToQueue Examples.A w)))
    = ["B"; "C"; "A"] /\
    Player.calls (snd (Player.addToQueue Examples.A w)) = Player.calls w.
Proof.
  eexists. split; [vm_compute; reflexivity|].
  match goal with
  | |- context [Player.addToQueue Examples.A ?w] =>
      rewrite (addToQueue_waits_while_processing Examples.A
                 (Decoder.mkAudioBuffer 1 2 16000
                    [Float.minusOne; Float.justBelowOne])
                 w eq_refl)
  end.
  - split; reflexivity.
  - discriminate.
  - reflexivity.
  - vm_compute. reflexivity.
Defined.

Lemma queue_drains_in_order_witness :
  exists w',
    Player.run
      [Player.AddToQueue Examples.A; Player.AddToQueue Examples.B;
       Player.AddToQueue Examples.C; Player.Ended 0; Player.Ended 1;
       Player.Ended 2]
      Cases.ready = Some w' /\
    Player.played w' = ["A"; "B"; "C"] /\
    Player.sounding w' = [].
Proof.
  assert (Hready : Player.exclusive Cases.ready).
  { split.
    - intros i. split; [intros []|discriminate].
    - split; [discriminate|intros H; exfalso; apply H; reflexivity]. }
  destruct (queue_drains_in_order
              [Examples.A; Examples.B; Examples.C] Cases.ready Hready
              eq_refl)
    as (w' & Hrun & Hcalls & _ & _ & Hsilent).
  - discriminate.
  - reflexivity.
  - reflexivity.
  - repeat constructor.
  - exists w'. split; [exact Hrun|]. split; [|exact Hsilent].
    unfold Player.played. rewrite Hcalls. reflexivity.
Defined.

Section SamplingFacts.

Import Player.

Lemma tidy_ext (w w' : World) :
  currentlyPlayingAudioBuffer w' = currentlyPlayingAudioBuffer w ->
  intervals w' = intervals w ->
  frequencyDataIntervalId w' = frequencyDataIntervalId w ->
  nextIntervalId w' = nextIntervalId w ->
  Sampling.tidy w -> Sampling.tidy w'.
Proof.
  unfold Sampling.tidy. intros -> -> -> ->. exact (fun H => H).
Qed.

Lemma playNextClip_tidy (w : World) :
  (isProcessing w = false -> currentlyPlayingAudioBuffer w = None) ->
  Sampling.tidy w -> Sampling.tidy (snd (playNextClip w)).
Proof.
  intros Hidle Hw. rewrite playNextClip_eq. cbn [snd].
  destruct (analyserNode w), (audioContext w);
    try (apply (tidy_ext w); [destruct w; reflexivity ..|exact Hw]).
  destruct (clipQueue w) as [|nextClip rest]; [exact Hw|].
  destruct (isProcessing w); [exact Hw|].
  specialize (Hidle eq_refl).
  destruct Hw as [Hintervals Hnext]. rewrite Hidle in Hintervals.
  destruct w as [playing0 fft0 context analyser initialized queue processing
                   current interval nodes0 intervals0 nextI nextC closing0
                   calls0]; cbn in *.
  subst intervals0. destruct nextI as [|i]; [congruence|].
  split; [|discriminate]. cbn. exists i. split; reflexivity.
Qed.

(** A timely event other than [clearQueue] keeps the intervals tidy. *)
Lemma step_tidy (e : Event) (w w' : World) :
  timely e w = true -> Sampling.gentle e = true ->
  step e w = Some w' ->
  exclusive w -> Sampling.tidy w -> Sampling.tidy w'.
Proof.
  unfold step. destruct (enabled e w); [|discriminate].
  intros Htimely Hgentle Hstep Hexclusive Hw. injection Hstep as <-.
  assert (Hidle : isProcessing w = false ->
                  currentlyPlayingAudioBuffer w = None).
  { intros Hgate. destruct Hexclusive as [_ Hiff].
    destruct (currentlyPlayingAudioBuffer w); [|reflexivity].
    assert (isProcessing w = true) by (apply Hiff; discriminate).
    congruence. }
  destruct e as [|message| | |n|i reading|fulfilled];
    try discriminate Hgentle.
  - apply (tidy_ext w); [destruct w; reflexivity ..|exact Hw].
  - cbn [handler]. destruct (notInitialized w) eqn:Hinit.
    + rewrite (addToQueue_blocked message w Hinit).
      apply (tidy_ext w); [destruct w; reflexivity ..|exact Hw].
    + destruct (Decoder.decode (Frame.data (frame message)))
        as [audioBuffer|err] eqn:Hdec.
      * rewrite (addToQueue_decoded message audioBuffer w Hinit Hdec).
        cbv zeta.
        match goal with |- context [if ?c then _ else _] => destruct c end.
        -- apply playNextClip_tidy.
           ++ destruct w; exact Hidle.
           ++ apply (tidy_ext w); [destruct w; reflexivity ..|exact Hw].
        -- apply (tidy_ext w); [destruct w; reflexivity ..|exact Hw].
      * rewrite (addToQueue_undecodable message err w Hinit Hdec).
        apply (tidy_ext w); [destruct w; reflexivity ..|exact Hw].
  - cbn [handler]. rewrite stopAll_state. cbn [snd].
    destruct Hw as [Hintervals Hnext].
    split; [|exact Hnext]. cbn.
    destruct (currentlyPlayingAudioBuffer w) as [m|].
    + destruct Hintervals as (i & -> & ->). cbn.
      rewrite Nat.eqb_refl. reflexivity.
    + rewrite Hintervals.
      destruct (frequencyDataIntervalId w) as [[|i]|]; reflexivity.
  - rewrite ended_state. apply playNextClip_tidy; [reflexivity|].
    destruct Hw as [Hintervals Hnext].
    split; [|exact Hnext]. cbn.
    cbn [timely] in Htimely.
    destruct (currentlyPlayingAudioBuffer w) as [m|]; [|discriminate].
    destruct Hintervals as (i & -> & ->). cbn.
    rewrite Nat.eqb_refl. reflexivity.
  - cbn [handler]. destruct (closure w i); [|exact Hw].
    unfold updateFrequencyData, bind, read, modify, ret.
    destruct w as [? ? ? [analyser|] ? ? ? ? ? ? ? ? ? ? ?];
      destruct reading; exact Hw.
  - apply (tidy_ext w); [destruct w, fulfilled; reflexivity ..|exact Hw].
Qed.

Lemma run_tidy (trace : list Event) :
  forall w w',
    forallb Sampling.gentle trace = true ->
    run_timely trace w = Some w' ->
    exclusive w -> Sampling.tidy w ->
    exclusive w' /\ Sampling.tidy w'.
Proof.
  induction trace as [|e trace IH]; intros w w' Hgentle Hrun Hex Hw.
  - injection Hrun as <-. split; assumption.
  - cbn [forallb] in Hgentle. apply andb_true_iff in Hgentle.
    destruct Hgentle as [He Hrest].
    cbn [run_timely] in Hrun.
    destruct (timely e w) eqn:Htimely; [|discriminate].
    destruct (step e w) as [w1|] eqn:Hstep; [|discriminate].
    apply (IH w1 w' Hrest Hrun).
    + apply (step_exclusive e w w1 Htimely Hstep Hex).
    + apply (step_tidy e w w1 Htimely He Hstep Hex Hw).
Qed.

End SamplingFacts.

(** X14: as long as clearQueue is not called and every ended event is
    timely, the sampling task follows playback: while a clip is
    processing exactly one interval is set, the one the hook remembers,
    and when nothing is processing no interval is set.  Natural
    completion and stopAll cancel it. *)
Theorem sampling_follows_playback
  (trace : list Player.Event) (w : Player.World) :
  forallb Sampling.gentle trace = true ->
  Player.run_timely trace Player.initial = Some w ->
  (Player.isProcessing w = false -> Player.sampling w = []) /\
  (Player.isProcessing w = true ->
   exists i, Player.sampling w = [i] /\
             Player.frequencyDataIntervalId w = Some i).
Proof.
  intros Hgentle Hrun.
  destruct (run_tidy trace Player.initial w Hgentle Hrun)
    as [[Hone Hiff] [Hintervals _]].
  - split.
    + intros i. split; [intros []|discriminate].
    + split; [discriminate|intros H; exfalso; apply H; reflexivity].
  - split; [reflexivity|discriminate].
  - unfold Player.sampling. split; intros Hgate.
    + destruct (Player.currentlyPlayingAudioBuffer w) as [n|].
      * assert (Player.isProcessing w = true)
          by (apply Hiff; discriminate).
        congruence.
      * rewrite Hintervals. reflexivity.
    + destruct (Player.currentlyPlayingAudioBuffer w) as [n|].
      * destruct Hintervals as (i & -> & ->). exists (S i).
        split; reflexivity.
      * exfalso. apply (proj1 Hiff Hgate). reflexivity.
Qed.

Lemma sampling_follows_playback_witness :
  exists w,
    Player.run_timely
      [Player.InitPlayer; Player.AddToQueue Examples.A;
       Player.AddToQueue Examples.B; Player.Ended 0; Player.StopAll]
      Player.initial = Some w /\
    Player.sampling w = [].
Proof.
  eexists. split; [vm_compute; reflexivity|].
  match goal with
  | |- Player.sampling ?w = [] =>
      apply (proj1 (sampling_follows_playback
                      [Player.InitPlayer; Player.AddToQueue Examples.A;
                       Player.AddToQueue Examples.B; Player.Ended 0;
                       Player.StopAll]
                      w eq_refl eq_refl))
  end.
  reflexivity.
Defined.

Section TearDown.

Import Player.

Lemma filter_idem {A} (f : A -> bool) (l : list A) :
  filter f (filter f l) = filter f l.
Proof.
  induction l as [|x l IH]; [reflexivity|].
  cbn [filter]. destruct (f x) eqn:Hx; [|exact IH].
  cbn [filter]. rewrite Hx, IH. reflexivity.
Qed.

Lemma stopAll_blocks (w : World) :
  notInitialized (snd (stopAll w)) = true.
Proof. rewrite stopAll_state. reflexivity. Qed.

End TearDown.

(** X15: stopAll completes normally in every state.  It creates no node
    and starts none, and the active node no longer sounds; the queue is
    empty, nothing is processing, the playing flag is false and the
    spectrum idle.  From then on every addToQueue is refused with "Audio
    player has not been initialized", and a sampling interval that is
    still set changes nothing when it fires. *)
Theorem stopAll_tears_down (w : Player.World) :
  let w' := snd (Player.stopAll w) in
  fst (Player.stopAll w) = normal tt /\
  (forall i, In i (Player.sounding w') ->
     In i (Player.sounding w) /\
     Player.currentlyPlayingAudioBuffer w <> Some i) /\
  List.length (Player.nodes w') = List.length (Player.nodes w) /\
  Player.clipQueue w' = [] /\
  Player.isProcessing w' = false /\
  Player.isPlaying w' = false /\
  Player.fft w' = Player.generateEmptyFft /\
  Player.currentlyPlayingAudioBuffer w' = None /\
  Player.calls w' = Player.calls w /\
  (forall message,
     Player.addToQueue message w'
     = (normal tt,
        Player.set_calls
          (Player.calls w'
             ++ [Player.onError "Audio player has not been initialized"])
          w')) /\
  (forall i reading w'',
     Player.step (Player.Interval i reading) w' = Some w'' -> w'' = w').
Proof.
  intros w'. subst w'.
  split; [rewrite stopAll_state; reflexivity|].
  split.
  { intros i. rewrite !In_sounding. unfold Player.node.
    rewrite stopAll_state. cbn [snd Player.nodes].
    destruct (Player.currentlyPlayingAudioBuffer w) as [n|].
    - rewrite nth_error_alter.
      destruct (Nat.eqb_spec i n) as [->|Hne].
      + intros (s & Hs & Hsounds). exfalso.
        destruct (nth_error (Player.nodes w) n) as [s0|]; [|discriminate].
        cbn in Hs. injection Hs as <-.
        unfold Player.sounds in Hsounds. cbn in Hsounds.
        rewrite andb_false_r in Hsounds. discriminate.
      + intros H. split; [exact H|congruence].
    - intros H. split; [exact H|discriminate]. }
  split.
  { rewrite stopAll_state. cbn [snd Player.nodes].
    destruct (Player.currentlyPlayingAudioBuffer w);
      [apply alter_length|reflexivity]. }
  do 6 (split; [rewrite stopAll_state; reflexivity|]).
  split.
  - intros message. apply addToQueue_blocked, stopAll_blocks.
  - intros i reading w''. unfold Player.step.
    destruct (Player.enabled (Player.Interval i reading)
                (snd (Player.stopAll w))); [|discriminate].
    intros Hstep. injection Hstep as <-. cbn [Player.handler].
    destruct (Player.closure (snd (Player.stopAll w)) i); [|reflexivity].
    rewrite stopAll_state. reflexivity.
Qed.

(** X16: when initPlayer is called after stopAll and before the promise
    of close() has settled, the continuation of that promise clears the
    new audio context: the player is marked initialised with its
    analyser in place, and every addToQueue is refused with "Audio
    player has not been initialized". *)
Theorem stale_close_undoes_initPlayer (w : Player.World) :
  Player.audioContext w <> None ->
  exists w',
    Player.run
      [Player.StopAll; Player.InitPlayer; Player.CloseSettled true] w
    = Some w' /\
    Player.isInitialized w' = true /\
    Player.analyserNode w' <> None /\
    Player.audioContext w' = None /\
    forall message,
      Player.addToQueue message w'
      = (normal tt,
         Player.set_calls
           (Player.calls w'
              ++ [Player.onError "Audio player has not been initialized"])
           w').
Proof.
  intros Hcontext.
  destruct (Player.audioContext w) as [c|] eqn:Hc; [|congruence].
  cbn [Player.run]. unfold Player.step.
  cbn [Player.enabled Player.handler].
  rewrite stopAll_state, Hc. cbn [snd].
  rewrite initPlayer_state. cbn [snd].
  cbn [Player.closing Player.set_isInitialized Player.set_analyserNode
         Player.set_audioContext Player.set_nextContext Nat.eqb negb].
  rewrite closeSettled_state. cbn [snd].
  eexists. split; [reflexivity|].
  split; [reflexivity|]. split; [discriminate|]. split; [reflexivity|].
  intros message. apply addToQueue_blocked. reflexivity.
Qed.

Lemma stale_close_undoes_initPlayer_witness :
  exists w',
    Player.run
      [Player.StopAll; Player.InitPlayer; Player.CloseSettled true]
      Cases.ready
    = Some w' /\
    Player.isInitialized w' = true /\
    Player.calls (snd (Player.addToQueue Examples.A w'))
    = [Player.onError "Audio player has not been initialized"].
Proof.
  destruct (stale_close_undoes_initPlayer Cases.ready)
    as (w' & Hrun & Hinit & _ & _ & Hadd).
  - discriminate.
  - exists w'. split; [exact Hrun|]. split; [exact Hinit|].
    rewrite Hadd. cbn [snd].
    vm_compute in Hrun. injection Hrun as <-. reflexivity.
Defined.

(** X17: when stopAll is called while a clip is active, the node is
    only disconnected, and when its ended event comes the handler calls
    playNextClip on the torn-down player: onError is called with "Audio
    environment is not initialized", and nothing starts. *)
Theorem ended_after_stopAll_reports_error
  (w : Player.World) (n : nat) (s : Player.AudioBufferSourceNode) :
  Player.currentlyPlayingAudioBuffer w = Some n ->
  Player.node w n = Some s ->
  Player.ended_pending s = true ->
  exists w',
    Player.run [Player.StopAll; Player.Ended n] w = Some w' /\
    Player.calls w'
    = Player.calls w
      ++ [Player.onError "Audio environment is not initialized"] /\
    Player.isProcessing w' = false /\
    Player.currentlyPlayingAudioBuffer w' = None /\
    List.length (Player.nodes w') = List.length (Player.nodes w).
Proof.
  intros Hcurrent Hnode Hpending. unfold Player.node in Hnode.
  cbn [Player.run]. unfold Player.step at 1.
  cbn [Player.enabled Player.handler].
  rewrite stopAll_state, Hcurrent. cbn [snd].
  unfold Player.step, Player.enabled, Player.node.
  cbn [Player.nodes].
  rewrite nth_error_alter, Nat.eqb_refl, Hnode. cbn [option_map].
  cbn [Player.ended_pending]. rewrite Hpending.
  rewrite ended_state, playNextClip_eq.
  cbn -[Player.alter].
  eexists. split; [reflexivity|]. cbn -[Player.alter].
  repeat split. rewrite !alter_length. reflexivity.
Qed.

Lemma ended_after_stopAll_reports_error_witness :
  exists w w',
    Examples.busy = Some w /\
    Player.run [Player.StopAll; Player.Ended 0] w = Some w' /\
    Player.calls w'
    = [Player.onPlayAudio "A";
       Player.onError "Audio environment is not initialized"].
Proof.
  eexists. eexists. split; [vm_compute; reflexivity|].
  match goal with
  | |- Player.run _ ?w = _ /\ _ =>
      destruct (ended_after_stopAll_reports_error w 0
                  (Player.mkNode
                     (Decoder.mkAudioBuffer 1 2 16000
                        [Float.minusOne; Float.justBelowOne])
                     true true true)
                  eq_refl eq_refl eq_refl)
        as (w' & Hrun & Hcalls & _)
  end.
  split; [vm_compute; reflexivity|vm_compute; reflexivity].
Defined.

(** X18: stopAll may be called again: the second call completes
    normally and changes nothing but the count of close() promises still
    to settle, one more if the context reference is still there. *)
Theorem stopAll_twice (w : Player.World) :
  Player.stopAll (snd (Player.stopAll w))
  = (normal tt,
     Player.set_closing
       match Player.audioContext w with
       | Some _ => S (S (Player.closing w))
       | None => Player.closing w
       end
       (snd (Player.stopAll w))).
Proof.
  rewrite !stopAll_state. cbn [snd].
  cbn [Player.audioContext Player.frequencyDataIntervalId
         Player.currentlyPlayingAudioBuffer Player.nodes Player.intervals
         Player.nextIntervalId Player.nextContext Player.closing Player.calls
         Player.set_closing Player.isPlaying Player.fft Player.analyserNode
         Player.isInitialized Player.clipQueue Player.isProcessing].
  destruct (Player.frequencyDataIntervalId w) as [[|i]|],
    (Player.audioContext w);
    rewrite ?filter_idem; reflexivity.
Qed.

(* ================================================================== *)
(** * The gain stage                                                   *)
(* ================================================================== *)

(** X19: with a gain node and an audio context in place, muteAudio sets
    the gain to 0 and the muted flag, unmuteAudio after it sets the gain
    back to 1 and clears the flag, and neither touches the queue or the
    playback state; without a gain node or without a context both do
    nothing at all, the flag included. *)
Theorem mute_then_unmute (s : Mixer.State) :
  (forall g c,
     Mixer.gainNode s = Some g ->
     Player.audioContext (Mixer.player s) = Some c ->
     Mixer.muteAudio s
     = Mixer.mkState (Mixer.player s)
         (Some (Mixer.mkGainNode (Mixer.context g) 0)) true /\
     Mixer.unmuteAudio (Mixer.muteAudio s)
     = Mixer.mkState (Mixer.player s)
         (Some (Mixer.mkGainNode (Mixer.context g) 1)) false) /\
  (Mixer.gainNode s = None \/ Player.audioContext (Mixer.player s) = None ->
   Mixer.muteAudio s = s /\ Mixer.unmuteAudio s = s).
Proof.
  unfold Mixer.muteAudio, Mixer.unmuteAudio, Mixer.setGain. split.
  - intros g c Hg Hc. rewrite Hg, Hc. cbn. rewrite Hc. split; reflexivity.
  - intros [Hg|Hc].
    + rewrite Hg. split; reflexivity.
    + rewrite Hc. destruct (Mixer.gainNode s); split; reflexivity.
Qed.

Example mute_before_initPlayer :
  Mixer.muteAudio Mixer.initial = Mixer.initial /\
  Mixer.level (Mixer.unmuteAudio
                 (Mixer.muteAudio (Mixer.initPlayer Mixer.initial)))
  = Some 1.
Proof. split; reflexivity. Qed.

(** X20: the muted flag outlives the graph: after muteAudio, stopAll and
    initPlayer, the flag still says muted while the new gain node is at
    full gain. *)
Theorem muted_flag_survives_initPlayer (s : Mixer.State) :
  Mixer.gainNode s <> None ->
  Player.audioContext (Mixer.player s) <> None ->
  Mixer.level (Mixer.muteAudio s) = Some 0 /\
  Mixer.isAudioMuted (Mixer.initPlayer (Mixer.stopAll (Mixer.muteAudio s)))
  = true /\
  Mixer.level (Mixer.initPlayer (Mixer.stopAll (Mixer.muteAudio s)))
  = Some 1.
Proof.
  intros Hg Hc.
  unfold Mixer.muteAudio, Mixer.setGain.
  destruct (Mixer.gainNode s) as [g|]; [|congruence].
  destruct (Player.audioContext (Mixer.player s)); [|congruence].
  repeat split.
Qed.

Lemma muted_flag_survives_initPlayer_witness :
  Mixer.isAudioMuted
    (Mixer.initPlayer
       (Mixer.stopAll (Mixer.muteAudio (Mixer.initPlayer Mixer.initial))))
  = true /\
  Mixer.level
    (Mixer.initPlayer
       (Mixer.stopAll (Mixer.muteAudio (Mixer.initPlayer Mixer.initial))))
  = Some 1.
Proof.
  destruct (muted_flag_survives_initPlayer (Mixer.initPlayer Mixer.initial))
    as (_ & Hflag & Hlevel).
  - discriminate.
  - discriminate.
  - split; [exact Hflag|exact Hlevel].
Defined.

(* ================================================================== *)
(** * The traces of the scheduler, on examples                         *)
(* ================================================================== *)

Lemma playback_follows_enqueue_order_witness :
  exists w,
    Player.run
      [Player.InitPlayer; Player.AddToQueue Examples.A; Player.ClearQueue;
       Player.AddToQueue Examples.empty; Player.AddToQueue Examples.B;
       Player.Ended 0; Player.AddToQueue Examples.C]
      Player.initial = Some w /\
    Subseq (Player.played w ++ map Player.id (Player.clipQueue w))
      ["A"; "E"; "B"; "C"].
Proof.
  eexists. split; [vm_compute; reflexivity|].
  match goal with
  | |- Subseq (Player.played ?w ++ _) _ =>
      exact (playback_follows_enqueue_order
               [Player.InitPlayer; Player.AddToQueue Examples.A;
                Player.ClearQueue; Player.AddToQueue Examples.empty;
                Player.AddToQueue Examples.B; Player.Ended 0;
                Player.AddToQueue Examples.C]
               w eq_refl)
  end.
Defined.

Lemma timely_completions_keep_exclusion_witness :
  exists w,
    Player.run_timely
      [Player.InitPlayer; Player.AddToQueue Examples.A;
       Player.AddToQueue Examples.B; Player.Ended 0; Player.ClearQueue;
       Player.AddToQueue Examples.C]
      Player.initial = Some w /\
    (Player.isProcessing w = true <-> Player.sounding w <> []).
Proof.
  eexists. split; [vm_compute; reflexivity|].
  match goal with
  | |- Player.isProcessing ?w = true <-> _ =>
      exact (proj2 (timely_completions_keep_exclusion
                      [Player.InitPlayer; Player.AddToQueue Examples.A;
                       Player.AddToQueue Examples.B; Player.Ended 0;
                       Player.ClearQueue; Player.AddToQueue Examples.C]
                      w eq_refl))
  end.
Defined.

Section Upkeep.

Import Player.

Lemma played_length_app (w : World) (c : Call) :
  List.length (played (set_calls (calls w ++ [c]) w))
  = (List.length (played w)
     + match c with onPlayAudio _ => 1 | onError _ => 0 end)%nat.
Proof.
  rewrite played_app, length_app. destruct c; reflexivity.
Qed.

(** What [playNextClip] keeps. *)
Lemma playNextClip_keeps (w : World) :
  let w' := snd (playNextClip w) in
  (isPlaying w = isProcessing w -> isPlaying w' = isProcessing w') /\
  isInitialized w' = isInitialized w /\
  analyserNode w' = analyserNode w /\
  (List.length (nodes w) = List.length (played w) ->
   List.length (nodes w') = List.length (played w')).
Proof.
  cbv zeta. rewrite playNextClip_eq. cbn [snd].
  destruct w as [playing0 fft0 context analyser initialized queue processing
                   current interval nodes0 intervals0 nextI nextC closing0
                   calls0].
  cbn -[alter].
  destruct analyser, context;
    [destruct queue; [|destruct processing]| | |];
    unfold played; cbn -[alter];
    rewrite ?flat_map_app, ?length_app, ?alter_length, ?length_app;
    cbn; repeat split; auto; intros; lia.
Qed.

(** One event keeps the playing flag equal to the gate, the analyser in
    step with the initialised flag, and one announcement per node. *)
Lemma step_keeps (e : Event) (w w' : World) :
  let kept w :=
    isPlaying w = isProcessing w /\
    (isInitialized w = true <-> analyserNode w <> None) /\
    List.length (nodes w) = List.length (played w) in
  step e w = Some w' -> kept w -> kept w'.
Proof.
  intros kept. unfold step. destruct (enabled e w); [|discriminate].
  intros Hstep (Hflag & Hinit & Hcount). injection Hstep as <-.
  assert (Hsame : forall w1,
    isPlaying w1 = isPlaying w -> isProcessing w1 = isProcessing w ->
    isInitialized w1 = isInitialized w -> analyserNode w1 = analyserNode w ->
    List.length (nodes w1) = List.length (nodes w) ->
    List.length (played w1) = List.length (played w) ->
    kept w1).
  { intros w1 H1 H2 H3 H4 H5 H6. unfold kept.
    rewrite H1, H2, H3, H4, H5, H6. auto. }
  assert (Hplay : forall w1, kept w1 -> kept (snd (playNextClip w1))).
  { intros w1 (K1 & K2 & K3).
    destruct (playNextClip_keeps w1) as (P1 & P2 & P3 & P4).
    unfold kept. rewrite P2, P3. auto. }
  destruct e as [|message| | |n|i reading|fulfilled].
  - cbn [handler]. rewrite initPlayer_state. cbn [snd].
    destruct w; cbn in *. unfold kept. cbn.
    repeat split; try assumption; try discriminate.
  - cbn [handler]. destruct (notInitialized w) eqn:Hblocked.
    + rewrite (addToQueue_blocked message w Hblocked). cbn [snd].
      apply Hsame; try (destruct w; reflexivity).
      rewrite played_length_app. lia.
    + destruct (Decoder.decode (Frame.data (frame message)))
        as [audioBuffer|err] eqn:Hdec.
      * rewrite (addToQueue_decoded message audioBuffer w Hblocked Hdec).
        cbv zeta.
        match goal with |- context [if ?c then _ else _] => destruct c end.
        -- apply Hplay. apply Hsame; destruct w; reflexivity.
        -- apply Hsame; destruct w; reflexivity.
      * rewrite (addToQueue_undecodable message err w Hblocked Hdec).
        cbn [snd]. apply Hsame; try (destruct w; reflexivity).
        rewrite played_length_app. lia.
  - cbn [handler]. rewrite stopAll_state. cbn [snd].
    unfold kept, played in *. cbn.
    split; [reflexivity|]. split; [split; [discriminate|congruence]|].
    destruct (currentlyPlayingAudioBuffer w);
      rewrite ?alter_length; exact Hcount.
  - cbn [handler]. rewrite clearQueue_eq. cbn [snd].
    destruct w as [? ? ? ? ? ? ? [current|] ? ? ? ? ? ? ?];
      unfold kept, played in *; cbn in *;
      rewrite ?alter_length; auto.
  - rewrite ended_state. apply Hplay.
    unfold kept, played in *. cbn.
    rewrite !alter_length. auto.
  - cbn [handler]. destruct (closure w i); [|split; auto].
    unfold updateFrequencyData, bind, read, modify, ret.
    destruct w as [? ? ? [analyser|] ? ? ? ? ? ? ? ? ? ? ?];
      destruct reading; split; auto.
  - cbn [handler]. rewrite closeSettled_state. cbn [snd].
    apply Hsame; destruct w, fulfilled; reflexivity.
Qed.

Lemma run_keeps (trace : list Event) :
  forall w w',
    run trace w = Some w' ->
    isPlaying w = isProcessing w /\
    (isInitialized w = true <-> analyserNode w <> None) /\
    List.length (nodes w) = List.length (played w) ->
    isPlaying w' = isProcessing w' /\
    (isInitialized w' = true <-> analyserNode w' <> None) /\
    List.length (nodes w') = List.length (played w').
Proof.
  induction trace as [|e trace IH]; intros w w' Hrun Hw.
  - injection Hrun as <-. exact Hw.
  - cbn [run] in Hrun. destruct (step e w) as [w1|] eqn:Hstep;
      [|discriminate].
    apply (IH w1 w' Hrun). apply (step_keeps e w w1 Hstep Hw).
Qed.

Lemma initial_kept :
  isPlaying initial = isProcessing initial /\
  (isInitialized initial = true <-> analyserNode initial <> None) /\
  List.length (nodes initial) = List.length (played initial).
Proof.
  split; [reflexivity|]. split; [|reflexivity].
  split; [discriminate|intros H; exfalso; apply H; reflexivity].
Qed.

End Upkeep.

(** X21: along every trace, stale ended events included, a source node
    is created only together with one call of onPlayAudio: there are as
    many nodes as announcements, and the visible playing flag always
    equals the processing gate. *)
Theorem every_node_is_announced
  (trace : list Player.Event) (w : Player.World) :
  Player.run trace Player.initial = Some w ->
  List.length (Player.nodes w) = List.length (Player.played w) /\
  Player.isPlaying w = Player.isProcessing w.
Proof.
  intros Hrun.
  destruct (run_keeps trace Player.initial w Hrun initial_kept)
    as (Hflag & _ & Hcount).
  split; assumption.
Qed.

Lemma every_node_is_announced_witness :
  exists w,
    Player.run
      [Player.InitPlayer; Player.AddToQueue Examples.A; Player.ClearQueue;
       Player.AddToQueue Examples.B; Player.Ended 0;
       Player.AddToQueue Examples.C]
      Player.initial = Some w /\
    List.length (Player.nodes w) = 3%nat /\
    Player.isPlaying w = Player.isProcessing w.
Proof.
  eexists. split; [vm_compute; reflexivity|].
  match goal with
  | |- List.length (Player.nodes ?w) = _ /\ _ =>
      destruct (every_node_is_announced
                  [Player.InitPlayer; Player.AddToQueue Examples.A;
                   Player.ClearQueue; Player.AddToQueue Examples.B;
                   Player.Ended 0; Player.AddToQueue Examples.C]
                  w eq_refl) as [Hcount Hflag]
  end.
  split; [reflexivity|exact Hflag].
Defined.

(** X22: in every state reached from the initial one the analyser is in
    place exactly when the player is marked initialised, so addToQueue
    never reports "Audio environment is not initialized": a clip that
    decodes on an initialised player is started or queued. *)
Theorem accepted_clip_is_started_or_queued
  (trace : list Player.Event) (w : Player.World)
  (message : AudioOutput) (audioBuffer : Decoder.AudioBuffer) :
  Player.run trace Player.initial = Some w ->
  Player.notInitialized w = false ->
  Decoder.decode (Frame.data (frame message)) = inl audioBuffer ->
  let w' := snd (Player.addToQueue message w) in
  let clip := Player.mkClip (Frame.id (frame message)) audioBuffer in
  (Player.isInitialized w = true <-> Player.analyserNode w <> None) /\
  ((Player.clipQueue w' = Player.clipQueue w ++ [clip] /\
    Player.calls w' = Player.calls w) \/
   (Player.clipQueue w = [] /\ Player.clipQueue w' = [] /\
    Player.calls w'
    = Player.calls w ++ [Player.onPlayAudio (Frame.id (frame message))])).
Proof.
  intros Hrun Hinit Hdec.
  destruct (run_keeps trace Player.initial w Hrun initial_kept)
    as (_ & Hiff & _).
  cbv zeta. split; [exact Hiff|].
  rewrite (addToQueue_decoded message audioBuffer w Hinit Hdec). cbv zeta.
  unfold Player.notInitialized in Hinit.
  destruct (Player.isInitialized w) eqn:Hi; [|discriminate].
  destruct (Player.audioContext w) as [c|] eqn:Hc; [|discriminate].
  destruct (Player.analyserNode w) as [a|] eqn:Ha;
    [|exfalso; apply (proj1 Hiff eq_refl); reflexivity].
  rewrite playNextClip_eq.
  destruct w as [playing0 fft0 context analyser initialized queue processing
                   current interval nodes0 intervals0 nextI nextC closing0
                   calls0]; cbn in *; subst.
  destruct queue as [|c0 queue]; cbn.
  - destruct processing; cbn; [left|right]; auto.
  - destruct queue; cbn; left; auto.
Qed.

Lemma accepted_clip_is_started_or_queued_witness :
  Player.calls (snd (Player.addToQueue Examples.A Cases.ready))
  = [Player.onPlayAudio "A"].
Proof.
  destruct (accepted_clip_is_started_or_queued [Player.InitPlayer]
              Cases.ready Examples.A
              (Decoder.mkAudioBuffer 1 2 16000
                 [Float.minusOne; Float.justBelowOne])
              eq_refl eq_refl eq_refl)
    as (_ & [(Hqueue & _)|(_ & _ & Hcalls)]).
  - vm_compute in Hqueue. discriminate Hqueue.
  - exact Hcalls.
Defined.
